(** * Retink text summarizer (src/server.js): model and verified properties

    A shallow embedding of the request validation, word counting, prompt
    building, compression-ratio formatting, provider-error mapping and
    rate-limit denial of [src/server.js].

    - JavaScript strings are sequences of UTF-16 code units ([list N]).
    - JavaScript numbers are IEEE-754 binary64 values, modelled by the
      [spec_float] operations of the standard library at precision 53.
    - The call to the language-model provider is the only effect of the
      handler: the provider is an oracle and the handler returns, next to
      its response, the list of prompts it sent.
    - The rate limiter is a state machine over a finite map keyed by
      client address. *)

From Stdlib Require Import ZArith NArith List Bool Ascii String Lia.
From Stdlib Require Import DecimalString Floats.SpecFloat.
From stdpp Require Import base decidable option list gmap.

Local Open Scope Z_scope.

(* ================================================================== *)
(** * JavaScript strings                                                *)
(* ================================================================== *)

Module JsString.

(** A string is its sequence of UTF-16 code units. *)
Abbreviation jsstring := (list N).

(** A literal of the source, written with ASCII characters. *)
Definition lit (s : string) : jsstring :=
  map N_of_ascii (list_ascii_of_string s).

(** The class [\s] of a regular expression, which is also the set of
    characters removed by [String.prototype.trim]: the WhiteSpace and
    LineTerminator code points of ECMAScript, all of them in the BMP. *)
Definition is_whitespace (c : N) : bool :=
  (((9 <=? c) && (c <=? 13)) || (c =? 32) || (c =? 160) || (c =? 0x1680)
   || ((0x2000 <=? c) && (c <=? 0x200A))
   || (c =? 0x2028) || (c =? 0x2029) || (c =? 0x202F) || (c =? 0x205F)
   || (c =? 0x3000) || (c =? 0xFEFF))%N.

Fixpoint trimStart (s : jsstring) : jsstring :=
  match s with
  | [] => []
  | c :: r => if is_whitespace c then trimStart r else s
  end.

Definition trimEnd (s : jsstring) : jsstring := rev (trimStart (rev s)).

(** [s.trim()] *)
Definition trim (s : jsstring) : jsstring := trimEnd (trimStart s).

(** [s.split(/\s+/)]: the pieces between the maximal runs of white
    space.  [cur] is the piece being read, [in_run] tells that the
    previous code unit was white space (the match of [\s+] is greedy, so
    a run is consumed whole).  A string that starts or ends with white
    space yields an empty first or last piece, and the empty string yields
    the one empty piece. *)
Fixpoint split_go (in_run : bool) (cur : jsstring) (s : jsstring)
  : list jsstring :=
  match s with
  | [] => [cur]
  | c :: r =>
      if is_whitespace c
      then (if in_run then split_go true cur r
            else cur :: split_go true [] r)
      else split_go false (cur ++ [c]) r
  end.

Definition split_whitespace (s : jsstring) : list jsstring :=
  split_go false [] s.

(** [prefix] is a prefix of [s]. *)
Fixpoint starts_with (prefix s : jsstring) : bool :=
  match prefix, s with
  | [], _ => true
  | _ :: _, [] => false
  | a :: p, b :: r => (a =? b)%N && starts_with p r
  end.

(** [s.includes(needle)] *)
Fixpoint includes (s needle : jsstring) : bool :=
  starts_with needle s ||
  match s with
  | [] => false
  | _ :: r => includes r needle
  end.

(** Decimal digits of a natural number, as [String(n)] writes them. *)
Definition decimal (n : N) : jsstring :=
  lit (NilZero.string_of_uint (N.to_uint n)).

End JsString.
Import JsString.

(* ================================================================== *)
(** * JavaScript numbers                                               *)
(* ================================================================== *)

Module JsNumber.

(** A Number is an IEEE-754 binary64 value: precision 53, infinities at
    exponent 1024.  The arithmetic operators are the correctly rounded
    operations of the standard library's [SpecFloat]. *)
Abbreviation number := spec_float.

Definition prec : Z := 53.
Definition emax : Z := 1024.

(** The Number of an integer (exact below [2^53], as for every length
    of an array or of a string). *)
Definition of_Z (z : Z) : number := binary_normalize prec emax z 0 false.
Definition of_nat (n : nat) : number := of_Z (Z.of_nat n).

Definition sub : number -> number -> number := SFsub prec emax.
Definition div : number -> number -> number := SFdiv prec emax.
Definition mul : number -> number -> number := SFmul prec emax.

(** [10^21 <= m * 2^e] *)
Definition at_least_1e21 (m : positive) (e : Z) : bool :=
  if 0 <=? e then 10 ^ 21 <=? Z.pos m * 2 ^ e
  else 10 ^ 21 * 2 ^ (- e) <=? Z.pos m.

(** The integer [n] for which [n / 10^f - m * 2^e] is closest to zero,
    the larger one if there are two (step 10.a of
    [Number.prototype.toFixed]). *)
Definition scaled_round (f : nat) (m : positive) (e : Z) : Z :=
  let p := 10 ^ Z.of_nat f in
  if 0 <=? e then p * Z.pos m * 2 ^ e
  else (2 * p * Z.pos m + 2 ^ (- e)) / 2 ^ (1 - e).

Definition pad_left (f : nat) (s : jsstring) : jsstring :=
  repeat 48%N (f - length s) ++ s.

(** Digits of the integer [n] with a point before the last [f] ones
    (steps 10.b-10.d of [toFixed]). *)
Definition fixed_digits (f : nat) (n : Z) : jsstring :=
  let p := 10 ^ Z.of_nat f in
  decimal (Z.to_N (n / p))
  ++ match f with
     | O => []
     | _ => lit "." ++ pad_left f (decimal (Z.to_N (n mod p)))
     end.

(** [Number::toString] of an integer [X >= 10^21] that is the value of
    the Number [x]: the digits [s] of the shortest decimal [s * 10^(n-k)]
    that reads back as [x], in exponential notation.  Candidates for a
    given number [k] of digits are the two multiples of [10^(n-k)]
    around [X]; the closest one is taken, the even one on a tie. *)
Definition shortest_candidates (x : number) (X n k : Z) : list (Z * Z) :=
  let lo := X / 10 ^ (n - k) in
  let up := if lo + 1 <? 10 ^ k then (lo + 1, n) else (10 ^ (k - 1), n + 1) in
  filter (λ c : Z * Z, SFeqb (of_Z (c.1 * 10 ^ (c.2 - k))) x = true)
         [(lo, n); up].

Definition closer (X k : Z) (a b : Z * Z) : Z * Z :=
  let da := Z.abs (a.1 * 10 ^ (a.2 - k) - X) in
  let db := Z.abs (b.1 * 10 ^ (b.2 - k) - X) in
  if da <? db then a
  else if db <? da then b
  else if Z.even a.1 then a else b.

Fixpoint shortest_digits (x : number) (X n : Z) (k : Z) (fuel : nat)
  : Z * Z * Z :=
  match fuel with
  | O => (X, n, n)
  | S fuel' =>
      match shortest_candidates x X n k with
      | [] => shortest_digits x X n (k + 1) fuel'
      | [a] => (a, k)
      | a :: b :: _ => (closer X k a b, k)
      end
  end.

Definition toString_large (x : number) (X : Z) : jsstring :=
  let n := Z.of_nat (length (decimal (Z.to_N X))) in
  let '(s, n', k) := shortest_digits x X n 1 17 in
  let ds := decimal (Z.to_N s) in
  take 1 ds
  ++ (if k =? 1 then [] else lit "." ++ drop 1 ds)
  ++ lit "e+" ++ decimal (Z.to_N (n' - 1)).

(** [x.toFixed(f)], for [0 <= f <= 100]. *)
Definition toFixed (x : number) (f : nat) : jsstring :=
  match x with
  | S754_nan => lit "NaN"
  | S754_infinity false => lit "Infinity"
  | S754_infinity true => lit "-Infinity"
  | S754_zero _ => fixed_digits f 0
  | S754_finite neg m e =>
      (if neg then lit "-" else [])
      ++ (if at_least_1e21 m e
          then toString_large (S754_finite false m e) (Z.pos m * 2 ^ e)
          else fixed_digits f (scaled_round f m e))
  end.

(** [Math.ceil(x)] of a finite Number, as an integer ([-0] is [0]); [NaN]
    and the infinities have no integer value. *)
Definition ceil (x : number) : option Z :=
  match x with
  | S754_zero _ => Some 0
  | S754_finite neg m e =>
      let n := if neg then Z.neg m else Z.pos m in
      Some (if 0 <=? e then n * 2 ^ e else - ((- n) / 2 ^ (- e)))
  | _ => None
  end.

End JsNumber.

(* ================================================================== *)
(** * Values of a JSON request body                                    *)
(* ================================================================== *)

(** What a field of the parsed body holds: nothing ([JUndefined], the
    field is absent), a string, or a value of another type.  Of a value
    that is not a string the code only uses the string that
    express-validator makes of it before it runs a validator ([image]: the
    empty string for [null], the digits of a number and so on).  An array
    is validated element by element: the array of one element is the
    [JOther] of the string of that element (["casual"] is
    [JOther "casual"]); arrays of no or of several elements are not
    values of this type. *)
Inductive jsvalue :=
| JUndefined
| JString (s : jsstring)
| JOther (image : jsstring).

Definition jsvalue_eqb_string (v : jsvalue) (s : string) : bool :=
  match v with
  | JString t => bool_decide (t = lit s)
  | _ => false
  end.

(* ================================================================== *)
(** * Text metrics and prompt fragments (server.js, lines 56-79)       *)
(* ================================================================== *)

(** [countWords]:
    [text.trim().split(/\s+/).filter(word => word.length > 0).length] *)
Definition countWords (text : jsstring) : nat :=
  length (filter (λ word : jsstring, (0 < length word)%nat)
                 (split_whitespace (trim text))).

(** [getSummaryLength]: a [switch] on the value, by strict equality. *)
Definition getSummaryLength (length : jsvalue) : jsstring :=
  if jsvalue_eqb_string length "short" then lit "1-2 sentences"
  else if jsvalue_eqb_string length "long" then lit "4-6 sentences"
  else lit "2-4 sentences".

(** [getToneInstruction] *)
Definition getToneInstruction (tone : jsvalue) : jsstring :=
  if jsvalue_eqb_string tone "professional"
  then lit "Use a professional and formal tone."
  else if jsvalue_eqb_string tone "casual"
  then lit "Use a casual and conversational tone."
  else if jsvalue_eqb_string tone "academic"
  then lit "Use an academic and scholarly tone."
  else if jsvalue_eqb_string tone "creative"
  then lit "Use a creative and engaging tone."
  else [].

(** The line feed of the template literal. *)
Definition LF : jsstring := [10%N].

(** The template literal of lines 123-125; [text] is a string there. *)
Definition buildPrompt (text : jsstring) (tone length : jsvalue) : jsstring :=
  lit "Summarize this content in " ++ getSummaryLength length ++ lit ". "
  ++ getToneInstruction tone
  ++ lit " Focus on the key points and main ideas:" ++ LF ++ LF ++ text.

(** The expression of line 155:
    [((originalWordCount - summaryWordCount) / originalWordCount * 100)
       .toFixed(1) + '%'] *)
Definition compressionRatio (originalWordCount summaryWordCount : nat)
  : jsstring :=
  let o := JsNumber.of_nat originalWordCount in
  let s := JsNumber.of_nat summaryWordCount in
  JsNumber.toFixed
    (JsNumber.mul (JsNumber.div (JsNumber.sub o s) o) (JsNumber.of_Z 100)) 1
  ++ lit "%".

(* ================================================================== *)
(** * Request validation (server.js, lines 37-54)                      *)
(* ================================================================== *)

Record request := {
  body_text : jsvalue;
  body_tone : jsvalue;
  body_length : jsvalue
}.

(** An entry of [errors.array()]: the field and the message given to
    [withMessage]. *)
Record field_error := {
  field : jsstring;
  message : jsstring
}.

(** The string a validator of express-validator is run on. *)
Definition stringify (v : jsvalue) : jsstring :=
  match v with
  | JUndefined => []
  | JString s => s
  | JOther image => image
  end.

(** [isString()]: [typeof value === 'string']. *)
Definition isString (v : jsvalue) : bool :=
  match v with
  | JString _ => true
  | _ => false
  end.

Definition is_high_surrogate (c : N) : bool := ((0xD800 <=? c) && (c <=? 0xDBFF))%N.
Definition is_low_surrogate (c : N) : bool := ((0xDC00 <=? c) && (c <=? 0xDFFF))%N.
Definition is_presentation_selector (c : N) : bool := ((c =? 0xFE0F) || (c =? 0xFE0E))%N.

(** Matches of [/[\uD800-\uDBFF][\uDC00-\uDFFF]/g], from left to right. *)
Fixpoint surrogate_pairs (s : jsstring) : nat :=
  match s with
  | a :: ((b :: r) as t) =>
      if is_high_surrogate a && is_low_surrogate b
      then S (surrogate_pairs r)
      else surrogate_pairs t
  | _ => O
  end.

(** The length that validator.js [isLength] compares with its bounds: the
    code units, a surrogate pair counted once and the variation selectors
    U+FE0E and U+FE0F not counted. *)
Definition isLength_count (s : jsstring) : nat :=
  length s
  - length (filter (λ c, is_presentation_selector c = true) s)
  - surrogate_pairs s.

Definition tones : list jsstring :=
  [lit "professional"; lit "casual"; lit "academic"; lit "creative"].
Definition lengths : list jsstring :=
  [lit "short"; lit "medium"; lit "long"].

(** [isIn(values)] *)
Definition isIn (values : list jsstring) (v : jsvalue) : bool :=
  bool_decide (stringify v ∈ values).

Definition check (ok : bool) (f m : string) : list field_error :=
  if ok then [] else [{| field := lit f; message := lit m |}].

(** The chain on [text]: every validator of a chain runs, each failure
    adds its message. *)
Definition validate_text (v : jsvalue) : list field_error :=
  check (isString v) "text" "Text must be a string"
  ++ check (200 <=? Z.of_nat (isLength_count (stringify v)))
       "text" "Text must be at least 200 characters long"
  ++ check (Z.of_nat (isLength_count (stringify v)) <=? 10000)
       "text" "Text must not exceed 10,000 characters".

(** A chain that starts with [optional()] is skipped on an absent field. *)
Definition validate_optional (values : list jsstring) (f m : string)
  (v : jsvalue) : list field_error :=
  match v with
  | JUndefined => []
  | _ => check (isIn values v) f m
  end.

(** [validateSummarizeRequest], read through [validationResult(req).array()]. *)
Definition validateSummarizeRequest (req : request) : list field_error :=
  validate_text (body_text req)
  ++ validate_optional tones "tone"
       "Tone must be one of: professional, casual, academic, creative"
       (body_tone req)
  ++ validate_optional lengths "length"
       "Length must be one of: short, medium, long"
       (body_length req).

(* ================================================================== *)
(** * The summarize route (server.js, lines 103-197)                   *)
(* ================================================================== *)

(** What the [catch] block reads of the caught value. *)
Record js_error := {
  err_status : option Z;
  err_message : option jsstring
}.

(** Outcome of [await groq.chat.completions.create(...)] followed by the
    read of [choices[0].message.content]: the text of the completion, or
    the value thrown. *)
Inductive provider_outcome :=
| Completed (content : jsstring)
| Thrown (e : js_error).

Record summary_data := {
  originalText : jsstring;
  summary : jsstring;
  originalWordCount : nat;
  summaryWordCount : nat;
  data_compressionRatio : jsstring;
  settings_tone : jsvalue;
  settings_length : jsvalue;
  model : jsstring
}.

(** Bodies sent by the server; the [timestamp] of the success body is the
    clock's and is left out. *)
Inductive response_body :=
| Success (data : summary_data)
| ValidationFailed (error : jsstring) (details : list field_error)
| Failure (error : jsstring) (message : jsstring) (details : option jsstring)
| TooManyRequests (error : jsstring) (retryAfter : Z).

Record response := {
  status : Z;
  body : response_body
}.

(** A destructuring default: [{ x = d } = obj]. *)
Definition default_to (v : jsvalue) (d : string) : jsvalue :=
  match v with
  | JUndefined => JString (lit d)
  | _ => v
  end.

(** The [catch] block, lines 165-196.  [development] is
    [process.env.NODE_ENV === 'development']. *)
Definition handle_error (development : bool) (error : js_error) : response :=
  if bool_decide (err_status error = Some 429) then
    {| status := 503;
       body := Failure (lit "Service temporarily unavailable due to rate limits")
                       (lit "Please try again later") None |}
  else if bool_decide (err_status error = Some 401) then
    {| status := 500;
       body := Failure (lit "Configuration error")
                       (lit "API key is invalid or missing") None |}
  else if match err_message error with
          | Some m => negb (bool_decide (m = [])) && includes m (lit "context_length")
          | None => false
          end then
    {| status := 400;
       body := Failure (lit "Text too long")
                       (lit "The provided text exceeds the maximum allowed length")
                       None |}
  else
    {| status := 500;
       body := Failure (lit "Internal server error")
                       (lit "Failed to generate summary. Please try again.")
                       (if development then err_message error else None) |}.

Definition model_name : jsstring := lit "llama-3.3-70b-versatile".

(** The handler of [POST /summarize].  [provider] answers the one call to
    the provider; the first component of the result lists the prompts
    sent to it. *)
Definition summarize (development : bool)
  (provider : jsstring -> provider_outcome) (req : request)
  : list jsstring * response :=
  match validateSummarizeRequest req with
  | (_ :: _) as errors =>
      ([], {| status := 400;
              body := ValidationFailed (lit "Validation failed") errors |})
  | [] =>
      let tone := default_to (body_tone req) "professional" in
      let length := default_to (body_length req) "medium" in
      match body_text req with
      | JString text =>
          let originalWordCount := countWords text in
          let prompt := buildPrompt text tone length in
          match provider prompt with
          | Completed content =>
              let summary := trim content in
              let summaryWordCount := countWords summary in
              ([prompt],
               {| status := 200;
                  body := Success
                    {| originalText := text;
                       summary := summary;
                       originalWordCount := originalWordCount;
                       summaryWordCount := summaryWordCount;
                       data_compressionRatio :=
                         compressionRatio originalWordCount summaryWordCount;
                       settings_tone := tone;
                       settings_length := length;
                       model := model_name |} |})
          | Thrown error => ([prompt], handle_error development error)
          end
      | _ =>
          (* [text.trim] of a value that is not a string: a TypeError *)
          ([], handle_error development
                 {| err_status := None;
                    err_message := Some (lit "text.trim is not a function") |})
      end
  end.

(* ================================================================== *)
(** * The rate limiter (server.js, lines 24-35)                        *)
(* ================================================================== *)

(** The environment variables the server reads; a number is the result of
    [parseInt], [None] when it is [NaN]. *)
Record environment := {
  RATE_LIMIT_WINDOW_MS : option Z;
  RATE_LIMIT_MAX_REQUESTS : option Z;
  NODE_ENV_development : bool
}.

(** [parseInt(v) || d]: [NaN] and [0] are falsy. *)
Definition or_default (v : option Z) (d : Z) : Z :=
  match v with
  | Some x => if x =? 0 then d else x
  | None => d
  end.

Definition windowMs (env : environment) : Z :=
  or_default (RATE_LIMIT_WINDOW_MS env) (15 * 60 * 1000).

Definition max (env : environment) : Z :=
  or_default (RATE_LIMIT_MAX_REQUESTS env) 100.

(** [Math.ceil(a / b)] for integers, [b > 0]: the ceiling of the exact
    quotient.  For [b = 1000] it is what the Numbers give as long as
    [|a| < 2^53] ([NumberFacts.ceil_div_1000_exact]); beyond, the quotient
    of the Numbers is rounded first. *)
Definition ceil_div (a b : Z) : Z := - ((- a) / b).

(** The [message] option of the limiter: the body of a denial, for a
    window below [2^53] milliseconds (see [ceil_div]). *)
Definition limiter_message (env : environment) : response_body :=
  TooManyRequests
    (lit "Too many requests from this IP, please try again later.")
    (ceil_div (windowMs env) 1000).

(** Per client address: the requests counted in the current window and
    the time (in milliseconds) at which the window ends. *)
Abbreviation limiter_state := (gmap (list N) (Z * Z)).

Inductive decision :=
| Allowed
| Denied (remainingMs : Z).

(** Modelled from the spec: the counter of express-rate-limit, which is
    not part of the sources.  Section 4.5 and section 3 of the
    specification: a count per client address over a fixed window, reset
    when the window ends; a request is rejected when the count exceeds
    the maximum.  A rejection carries the time left in the window. *)
Definition limiter_hit (env : environment) (now : Z) (client : jsstring)
  (st : limiter_state) : limiter_state * decision :=
  let '(hits, resetTime) :=
    match st !! client with
    | Some (hits, resetTime) =>
        if resetTime <=? now then (1, now + windowMs env)
        else (hits + 1, resetTime)
    | None => (1, now + windowMs env)
    end in
  (<[client := (hits, resetTime)]> st,
   if max env <? hits then Denied (resetTime - now) else Allowed).

(** [app.use(limiter)] in front of the summarize route. *)
Definition post_summarize (env : environment)
  (provider : jsstring -> provider_outcome)
  (now : Z) (client : jsstring) (st : limiter_state) (req : request)
  : limiter_state * list jsstring * response :=
  match limiter_hit env now client st with
  | (st', Denied _) =>
      (st', [], {| status := 429; body := limiter_message env |})
  | (st', Allowed) =>
      let '(calls, res) := summarize (NODE_ENV_development env) provider req in
      (st', calls, res)
  end.

(** A run of the limiter: requests [(time, client)] in the order they
    arrive, with the decisions taken. *)
Fixpoint limiter_run (env : environment) (reqs : list (Z * jsstring))
  (st : limiter_state) : limiter_state * list decision :=
  match reqs with
  | [] => (st, [])
  | (now, client) :: rest =>
      let '(st', d) := limiter_hit env now client st in
      let '(st'', ds) := limiter_run env rest st' in
      (st'', d :: ds)
  end.

(* ================================================================== *)
(** * Statements of the specification, as it words them               *)
(* ================================================================== *)

(** The prompt as section 4.3 of the specification writes it: the fixed
    instruction, then the source text. *)
Definition spec_buildPrompt (text : jsstring) (tone length : jsvalue)
  : jsstring :=
  lit "Summarize this content in " ++ getSummaryLength length ++ lit ". "
  ++ getToneInstruction tone
  ++ lit " Focus on key points and main ideas:" ++ text.

(** Word count as section 4.2 words it: split on runs of white space,
    discard the empty tokens, count the rest. *)
Definition spec_wordCount (text : jsstring) : nat :=
  length (filter (λ word : jsstring, word ≠ []) (split_whitespace text)).

(** Words counted by one pass over the text: [in_word] tells that the
    code units just read belong to a word not yet counted. *)
Fixpoint words_from (in_word : bool) (s : jsstring) : nat :=
  match s with
  | [] => if in_word then 1 else 0
  | c :: r =>
      if is_whitespace c
      then ((if in_word then 1 else 0) + words_from false r)%nat
      else words_from true r
  end.

(** The time left in a window, in seconds, as the limiter would report
    it: [Math.ceil(remainingMs / 1000)]. *)
Definition remaining_seconds (remainingMs : Z) : Z := ceil_div remainingMs 1000.

(** The limiter's invariant at time [now]: no window ends later than a
    full window from now. *)
Definition limiter_inv (env : environment) (now : Z) (st : limiter_state)
  : Prop :=
  ∀ client hits resetTime,
    st !! client = Some (hits, resetTime) → resetTime <= now + windowMs env.

(** Requests arrive in the order of their times, none before [t]. *)
Fixpoint chronological (t : Z) (reqs : list (Z * jsstring)) : Prop :=
  match reqs with
  | [] => True
  | (now, _) :: rest => t <= now ∧ chronological now rest
  end.

(* ================================================================== *)
(** * Auxiliary definitions of the proofs                              *)
(* ================================================================== *)

(** A text of 200 letters and a request that carries nothing else. *)
Definition sample_text : jsstring := repeat 97%N 200.
Definition sample_request : request :=
  {| body_text := JString sample_text;
     body_tone := JUndefined;
     body_length := JUndefined |}.

(** An error of the provider with the given status and message. *)
Definition provider_error (st : Z) (m : string) : js_error :=
  {| err_status := Some st; err_message := Some (lit m) |}.

Definition all_whitespace w : Prop := Forall (λ c, is_whitespace c = true) w.

Definition nonempty_pieces (l : list jsstring) : nat :=
  length (filter (λ word : jsstring, (0 < length word)%nat) l).

Definition field_names : list jsstring := [lit "text"; lit "tone"; lit "length"].

(** The conditions under which validation fails, on what the validators
    see: the type of the text, and the strings made of the three values. *)
Definition invalid (req : request) : Prop :=
  isString (body_text req) = false
  ∨ (Z.of_nat (isLength_count (stringify (body_text req))) < 200)
  ∨ (10000 < Z.of_nat (isLength_count (stringify (body_text req))))
  ∨ (body_tone req ≠ JUndefined ∧ stringify (body_tone req) ∉ tones)
  ∨ (body_length req ≠ JUndefined ∧ stringify (body_length req) ∉ lengths).

(** The claim on the hint of a denial, as the specification words it: the
    hint is the time left in the window, in seconds. *)
Definition spec_retryAfter_is_remaining : Prop :=
  ∀ env provider reqs now client req st' remainingMs,
    chronological 0 (reqs ++ [(now, client)]) →
    limiter_hit env now client (limiter_run env reqs ∅).1
    = (st', Denied remainingMs) →
    ∃ error,
      (post_summarize env provider now client (limiter_run env reqs ∅).1 req).2
      = {| status := 429;
           body := TooManyRequests error (remaining_seconds remainingMs) |}.

Definition one_per_window : environment :=
  {| RATE_LIMIT_WINDOW_MS := None;
     RATE_LIMIT_MAX_REQUESTS := Some 1;
     NODE_ENV_development := false |}.

Definition a_client : jsstring := lit "203.0.113.7".

(** A text of 200 spaces: long enough for the validator, and without a
    word. *)
Definition blank_text : jsstring := repeat 32%N 200.
Definition blank_request : request :=
  {| body_text := JString blank_text;
     body_tone := JUndefined;
     body_length := JUndefined |}.

Definition ratio_of (res : response) : option jsstring :=
  match body res with
  | Success data => Some (data_compressionRatio data)
  | _ => None
  end.

(** What a record of [SpecFloat]'s right shifts says of the value [N / D]
    it truncates: [shr_m] is the integer part, [shr_r] tells that the rest
    is at least one half, [shr_s] that it is neither zero nor one half. *)
Definition shr_inv (N D : Z) (mrs : shr_record) : Prop :=
  0 < D ∧ 0 <= shr_m mrs ∧ 0 <= N - D * shr_m mrs < D
  ∧ (shr_r mrs = true ↔ D <= 2 * (N - D * shr_m mrs))
  ∧ (shr_s mrs = true ↔ N - D * shr_m mrs ≠ 0 ∧ 2 * (N - D * shr_m mrs) ≠ D).

(** [x] is the normalized Number of sign [sx] and magnitude [v]. *)
Definition is_norm (x : spec_float) (sx : bool) (v : Z) : Prop :=
  ∃ m, x = S754_finite sx m (Zdigits2 v - 53)
       ∧ Z.pos m = v * 2 ^ (53 - Zdigits2 v).

(* ================================================================== *)
(** * The fallback route and notions of the further properties        *)
(* ================================================================== *)

(** [app.use('*', ...)], lines 199-205: the answer to a request that no
    route matched, from [req.method] and [req.originalUrl]. *)
Definition not_found (method originalUrl : jsstring) : response :=
  {| status := 404;
     body := Failure (lit "Endpoint not found")
               (lit "The endpoint " ++ method ++ lit " " ++ originalUrl
                ++ lit " does not exist")
               None |}.

(** The body [{ text: <200 letters>, tone: ["casual"] }]: the tone is an
    array, not a value of the enumeration, and the validators see its one
    element. *)
Definition array_tone_request : request :=
  {| body_text := JString sample_text;
     body_tone := JOther (lit "casual");
     body_length := JUndefined |}.

(** A number of tenths written as a percentage with one decimal place. *)
Definition percentage (negative : bool) (tenths : Z) : jsstring :=
  (if negative then lit "-" else [])
  ++ decimal (Z.to_N (tenths / 10)) ++ lit "."
  ++ decimal (Z.to_N (tenths mod 10)) ++ lit "%".

Definition no_whitespace (w : jsstring) : Prop :=
  Forall (λ c, is_whitespace c = false) w.

(* ================================================================== *)
(** * Provider errors: the catch block                                 *)
(* ================================================================== *)

Section ErrorMapping.

Variable development : bool.

Lemma handle_error_429 error :
  err_status error = Some 429 →
  handle_error development error =
    {| status := 503;
       body := Failure (lit "Service temporarily unavailable due to rate limits")
                       (lit "Please try again later") None |}.
Proof. intros H. unfold handle_error. rewrite bool_decide_eq_true_2; done. Qed.

Lemma handle_error_401 error :
  err_status error = Some 401 →
  handle_error development error =
    {| status := 500;
       body := Failure (lit "Configuration error")
                       (lit "API key is invalid or missing") None |}.
Proof.
  intros H. unfold handle_error.
  rewrite bool_decide_eq_false_2 by (rewrite H; discriminate).
  rewrite bool_decide_eq_true_2; done.
Qed.

Lemma handle_error_other_status error :
  err_status error ≠ Some 429 → err_status error ≠ Some 401 →
  handle_error development error =
    if match err_message error with
       | Some m => negb (bool_decide (m = [])) && includes m (lit "context_length")
       | None => false
       end
    then {| status := 400;
            body := Failure (lit "Text too long")
                      (lit "The provided text exceeds the maximum allowed length")
                      None |}
    else {| status := 500;
            body := Failure (lit "Internal server error")
                      (lit "Failed to generate summary. Please try again.")
                      (if development then err_message error else None) |}.
Proof.
  intros H1 H2. unfold handle_error.
  rewrite !bool_decide_eq_false_2; done.
Qed.

(** The handler sends one prompt and maps what the provider throws. *)
Lemma summarize_thrown provider req text error :
  validateSummarizeRequest req = [] →
  body_text req = JString text →
  provider (buildPrompt text (default_to (body_tone req) "professional")
              (default_to (body_length req) "medium")) = Thrown error →
  summarize development provider req =
    ([buildPrompt text (default_to (body_tone req) "professional")
        (default_to (body_length req) "medium")],
     handle_error development error).
Proof.
  intros Hv Ht Hp. unfold summarize. rewrite Hv, Ht, Hp. reflexivity.
Qed.

Lemma summarize_completed provider req text content :
  validateSummarizeRequest req = [] →
  body_text req = JString text →
  provider (buildPrompt text (default_to (body_tone req) "professional")
              (default_to (body_length req) "medium")) = Completed content →
  summarize development provider req =
    ([buildPrompt text (default_to (body_tone req) "professional")
        (default_to (body_length req) "medium")],
     {| status := 200;
        body := Success
          {| originalText := text;
             summary := trim content;
             originalWordCount := countWords text;
             summaryWordCount := countWords (trim content);
             data_compressionRatio :=
               compressionRatio (countWords text) (countWords (trim content));
             settings_tone := default_to (body_tone req) "professional";
             settings_length := default_to (body_length req) "medium";
             model := model_name |} |}).
Proof.
  intros Hv Ht Hp. unfold summarize. rewrite Hv, Ht, Hp. reflexivity.
Qed.

End ErrorMapping.

Lemma sample_request_valid : validateSummarizeRequest sample_request = [].
Proof. vm_compute. reflexivity. Qed.

(** C5. A failure of the provider that reports status 401 is answered with
    HTTP 500 and the error "Configuration error", whatever its message and
    whatever the request that passed validation. *)
Theorem C5_unauthorized_is_configuration_error
  (development : bool) (provider : jsstring -> provider_outcome)
  (req : request) (text : jsstring) (error : js_error) :
  validateSummarizeRequest req = [] →
  body_text req = JString text →
  provider (buildPrompt text (default_to (body_tone req) "professional")
              (default_to (body_length req) "medium")) = Thrown error →
  err_status error = Some 401 →
  (summarize development provider req).2 =
    {| status := 500;
       body := Failure (lit "Configuration error")
                       (lit "API key is invalid or missing") None |}.
Proof.
  intros Hv Ht Hp H401.
  rewrite (summarize_thrown development provider req text error Hv Ht Hp).
  cbn [snd]. by apply handle_error_401.
Qed.

Lemma C5_witness :
  (summarize true (λ _, Thrown (provider_error 401 "Invalid API Key"))
     sample_request).2 =
    {| status := 500;
       body := Failure (lit "Configuration error")
                       (lit "API key is invalid or missing") None |}.
Proof.
  apply (C5_unauthorized_is_configuration_error true _ sample_request
           sample_text (provider_error 401 "Invalid API Key")).
  - apply sample_request_valid.
  - reflexivity.
  - reflexivity.
  - reflexivity.
Defined.

(** C6. A failure of the provider that reports status 429 is answered with
    HTTP 503: the status of the response is neither 500 nor 429. *)
Theorem C6_provider_rate_limit_is_503
  (development : bool) (provider : jsstring -> provider_outcome)
  (req : request) (text : jsstring) (error : js_error) :
  validateSummarizeRequest req = [] →
  body_text req = JString text →
  provider (buildPrompt text (default_to (body_tone req) "professional")
              (default_to (body_length req) "medium")) = Thrown error →
  err_status error = Some 429 →
  let res := (summarize development provider req).2 in
  status res = 503 ∧ status res ≠ 500 ∧ status res ≠ 429
  ∧ body res = Failure (lit "Service temporarily unavailable due to rate limits")
                       (lit "Please try again later") None.
Proof.
  intros Hv Ht Hp H429.
  rewrite (summarize_thrown development provider req text error Hv Ht Hp).
  cbn [snd]. rewrite (handle_error_429 development error H429). cbn.
  repeat split; discriminate.
Qed.

Lemma C6_witness :
  let res := (summarize false (λ _, Thrown (provider_error 429 "Rate limit reached"))
                sample_request).2 in
  status res = 503 ∧ status res ≠ 500 ∧ status res ≠ 429
  ∧ body res = Failure (lit "Service temporarily unavailable due to rate limits")
                       (lit "Please try again later") None.
Proof.
  apply (C6_provider_rate_limit_is_503 false _ sample_request
           sample_text (provider_error 429 "Rate limit reached")).
  - apply sample_request_valid.
  - reflexivity.
  - reflexivity.
  - reflexivity.
Defined.

(** C10. The catch block tests the status 429 first, then the status 401,
    then a message that contains [context_length], and answers with the
    generic error otherwise.  So an error of the provider with status 429
    whose message contains [context_length] is answered by the endpoint
    with 503, not with 400. *)
Theorem C10_error_priority
  (development : bool) (provider : jsstring -> provider_outcome)
  (req : request) (text : jsstring) (error : js_error) :
  validateSummarizeRequest req = [] →
  body_text req = JString text →
  provider (buildPrompt text (default_to (body_tone req) "professional")
              (default_to (body_length req) "medium")) = Thrown error →
  let res := (summarize development provider req).2 in
  let too_long :=
    ∃ m, err_message error = Some m ∧ includes m (lit "context_length") = true in
  (err_status error = Some 429 → status res = 503)
  ∧ (err_status error = Some 401 →
     status res = 500 ∧
     body res = Failure (lit "Configuration error")
                        (lit "API key is invalid or missing") None)
  ∧ (err_status error ≠ Some 429 → err_status error ≠ Some 401 → too_long →
     status res = 400 ∧
     body res = Failure (lit "Text too long")
                  (lit "The provided text exceeds the maximum allowed length") None)
  ∧ (err_status error ≠ Some 429 → err_status error ≠ Some 401 → ¬ too_long →
     status res = 500 ∧
     body res = Failure (lit "Internal server error")
                  (lit "Failed to generate summary. Please try again.")
                  (if development then err_message error else None))
  ∧ (err_status error = Some 429 → too_long → status res = 503 ∧ status res ≠ 400).
Proof.
  intros Hv Ht Hp.
  rewrite (summarize_thrown development provider req text error Hv Ht Hp).
  cbn [snd]. cbn zeta.
  assert (∀ m, err_message error = Some m →
               includes m (lit "context_length") = true →
               negb (bool_decide (m = [])) && includes m (lit "context_length")
               = true) as Hinc.
  { intros m _ Hm. rewrite Hm. destruct m; [discriminate Hm | reflexivity]. }
  split; [intros H429; by rewrite handle_error_429 |].
  split; [intros H401; by rewrite handle_error_401 |].
  split; [| split].
  - intros N429 N401 (m & Em & Hm).
    rewrite handle_error_other_status by done.
    rewrite Em, (Hinc m Em Hm). by split.
  - intros N429 N401 Hnot.
    rewrite handle_error_other_status by done.
    destruct (err_message error) as [m|] eqn:Em; [| by split].
    destruct (includes m (lit "context_length")) eqn:Hm.
    + exfalso. apply Hnot. by exists m.
    + rewrite andb_false_r. by split.
  - intros H429 _. by rewrite handle_error_429.
Qed.

Lemma C10_witness :
  let res := (summarize false
                (λ _, Thrown (provider_error 429 "rate limited: context_length exceeded"))
                sample_request).2 in
  status res = 503 ∧ status res ≠ 400.
Proof.
  intros res.
  apply (C10_error_priority false _ sample_request sample_text
           (provider_error 429 "rate limited: context_length exceeded")).
  - apply sample_request_valid.
  - reflexivity.
  - reflexivity.
  - reflexivity.
  - exists (lit "rate limited: context_length exceeded"). split; reflexivity.
Defined.

(* ================================================================== *)
(** * Word counting                                                    *)
(* ================================================================== *)

Section WordCount.

Implicit Types (s u v w : jsstring) (b : bool).

Lemma nonempty_pieces_cons w l :
  nonempty_pieces (w :: l)
  = ((if bool_decide (w ≠ []) then 1 else 0) + nonempty_pieces l)%nat.
Proof.
  unfold nonempty_pieces. rewrite filter_cons.
  destruct w as [|c w]; cbn.
  - destruct (decide (0 < 0)%nat); [lia | reflexivity].
  - destruct (decide (0 < S (length w))%nat); [reflexivity | lia].
Qed.

(** The pieces of [split_go] that are not empty are the words that
    [words_from] counts. *)
Lemma split_go_words s : ∀ in_run cur,
  (in_run = true → cur = []) →
  nonempty_pieces (split_go in_run cur s)
  = words_from (bool_decide (cur ≠ [])) s.
Proof.
  induction s as [|c r IH]; intros in_run cur Hrun.
  - cbn [split_go words_from]. rewrite nonempty_pieces_cons. unfold nonempty_pieces. cbn. lia.
  - cbn [split_go words_from]. destruct (is_whitespace c) eqn:Hc.
    + destruct in_run.
      * rewrite (Hrun eq_refl). rewrite IH by done. reflexivity.
      * rewrite nonempty_pieces_cons, IH by done. reflexivity.
    + rewrite IH by discriminate.
      rewrite bool_decide_eq_true_2; [reflexivity |].
      destruct cur; discriminate.
Qed.

Lemma words_from_whitespace b w :
  all_whitespace w → words_from b w = if b then 1%nat else 0%nat.
Proof.
  intros Hw. revert b. induction Hw as [|c w Hc _ IH]; intros b; cbn.
  - reflexivity.
  - rewrite Hc, IH. lia.
Qed.

(** White space at the end of a text adds no word. *)
Lemma words_from_app_whitespace s : ∀ b w,
  all_whitespace w → words_from b (s ++ w) = words_from b s.
Proof.
  induction s as [|c r IH]; intros b w Hw; cbn.
  - by apply words_from_whitespace.
  - destruct (is_whitespace c); by rewrite IH.
Qed.

(** White space at the start of a text adds no word. *)
Lemma words_from_whitespace_app w v :
  all_whitespace w → words_from false (w ++ v) = words_from false v.
Proof.
  induction 1 as [|c w Hc _ IH]; cbn; [reflexivity |].
  by rewrite Hc, IH.
Qed.

(** A run of white space between two texts separates their words. *)
Lemma words_from_separated u : ∀ b w v,
  all_whitespace w → w ≠ [] →
  words_from b (u ++ w ++ v) = (words_from b u + words_from false v)%nat.
Proof.
  induction u as [|c r IH]; intros b w v Hw Hne; cbn.
  - destruct Hw as [|d w Hd Hw]; [done |]. cbn.
    by rewrite Hd, words_from_whitespace_app.
  - destruct (is_whitespace c); rewrite IH by done; lia.
Qed.

Lemma trimStart_split s :
  ∃ w, all_whitespace w ∧ s = w ++ trimStart s.
Proof.
  induction s as [|c r (w & Hw & IH)]; cbn.
  - exists []. split; [constructor | reflexivity].
  - destruct (is_whitespace c) eqn:Hc.
    + exists (c :: w). split; [by constructor |]. cbn. by rewrite <- IH.
    + exists []. split; [constructor | reflexivity].
Qed.

Lemma trimEnd_split s :
  ∃ w, all_whitespace w ∧ s = trimEnd s ++ w.
Proof.
  destruct (trimStart_split (rev s)) as (w & Hw & E).
  exists (rev w). split.
  - unfold all_whitespace in *. rewrite Forall_forall in *.
    intros c Hc. apply Hw. rewrite list_elem_of_In in *.
    by apply in_rev.
  - unfold trimEnd. rewrite <- rev_app_distr, <- E. by rewrite rev_involutive.
Qed.

(** Trimming a text does not change its words. *)
Lemma words_from_trim s : words_from false (trim s) = words_from false s.
Proof.
  unfold trim.
  destruct (trimStart_split s) as (w1 & Hw1 & E1).
  destruct (trimEnd_split (trimStart s)) as (w2 & Hw2 & E2).
  rewrite E1 at 2. rewrite words_from_whitespace_app by done.
  rewrite E2 at 2. by rewrite words_from_app_whitespace.
Qed.

Lemma countWords_words_from s : countWords s = words_from false s.
Proof.
  unfold countWords, split_whitespace.
  rewrite <- words_from_trim.
  change false with (bool_decide (@nil N ≠ [])) at 2.
  apply (split_go_words (trim s) false []). discriminate.
Qed.

Lemma spec_wordCount_words_from s : spec_wordCount s = words_from false s.
Proof.
  unfold spec_wordCount, split_whitespace.
  change false with (bool_decide (@nil N ≠ [])) at 2.
  rewrite <- (split_go_words s false []) by discriminate.
  unfold nonempty_pieces. generalize (split_go false [] s) as l.
  induction l as [|w l IH]; [reflexivity |].
  rewrite !filter_cons.
  destruct w as [|c w]; cbn.
  - destruct (decide ([] ≠ [])); [done |].
    destruct (decide (0 < 0)%nat); [lia | apply IH].
  - destruct (decide (c :: w ≠ [])) as [_|n]; [| by destruct n].
    destruct (decide (0 < S (length w))%nat); [| lia].
    cbn. by rewrite IH.
Qed.

End WordCount.

(** C8. [countWords] splits its input on runs of white space, discards
    the empty tokens and counts the rest; the amount of white space
    between, before or after the tokens does not change the count; and
    [countWords "a  b\tc" = 3], [countWords "" = 0], [countWords "   " = 0]. *)
Theorem C8_countWords :
  (∀ s, countWords s = spec_wordCount s)
  ∧ (∀ u v w1 w2, all_whitespace w1 → w1 ≠ [] → all_whitespace w2 → w2 ≠ [] →
       countWords (u ++ w1 ++ v) = countWords (u ++ w2 ++ v))
  ∧ (∀ s w1 w2, all_whitespace w1 → all_whitespace w2 →
       countWords (w1 ++ s ++ w2) = countWords s)
  ∧ countWords (lit "a  b" ++ [9%N] ++ lit "c") = 3%nat
  ∧ countWords [] = 0%nat
  ∧ countWords (lit "   ") = 0%nat.
Proof.
  split; [| split; [| split]].
  - intros s. by rewrite countWords_words_from, spec_wordCount_words_from.
  - intros u v w1 w2 H1 N1 H2 N2.
    by rewrite !countWords_words_from, !words_from_separated.
  - intros s w1 w2 H1 H2. rewrite !countWords_words_from.
    rewrite words_from_whitespace_app by done.
    by rewrite words_from_app_whitespace.
  - repeat split; vm_compute; reflexivity.
Qed.

Lemma C8_witness :
  countWords (lit "one" ++ lit "  " ++ lit "two")
  = countWords (lit "one" ++ [9%N; 10%N; 32%N] ++ lit "two")
  ∧ countWords (lit " " ++ lit "one two" ++ [10%N]) = countWords (lit "one two").
Proof.
  split.
  - apply (proj1 (proj2 C8_countWords)).
    + repeat constructor.
    + discriminate.
    + repeat constructor.
    + discriminate.
  - apply (proj1 (proj2 (proj2 C8_countWords))); repeat constructor.
Defined.

(* ================================================================== *)
(** * The prompt                                                       *)
(* ================================================================== *)

Lemma jsvalue_eqb_string_true v s :
  jsvalue_eqb_string v s = true ↔ v = JString (lit s).
Proof.
  destruct v as [|t|t]; cbn; try (split; [discriminate | discriminate]).
  rewrite bool_decide_eq_true. split; [by intros -> | by intros [= ->]].
Qed.

Lemma jsvalue_eqb_string_false v s :
  jsvalue_eqb_string v s = false ↔ v ≠ JString (lit s).
Proof.
  rewrite <- jsvalue_eqb_string_true. by destruct (jsvalue_eqb_string v s).
Qed.

Lemma C2_counterexample :
  ¬ (∀ text tone length,
       buildPrompt text tone length = spec_buildPrompt text tone length).
Proof.
  intros H. specialize (H (lit "text") (JString (lit "casual")) (JString (lit "short"))).
  vm_compute in H. discriminate H.
Qed.

(** C2 (amended). The prompt is the instruction
    "Summarize this content in <sentences>. <tone clause> Focus on the key
    points and main ideas:", a blank line (two line feeds), and the source
    text.  [short] gives "1-2 sentences", [long] gives "4-6 sentences" and
    every other value "2-4 sentences"; each of the four tones gives its
    sentence and every other value, an absent one too, the empty clause. *)
Theorem C2_prompt_format (text : jsstring) (tone length : jsvalue) :
  ∃ sentences clause,
    buildPrompt text tone length
    = lit "Summarize this content in " ++ sentences ++ lit ". " ++ clause
      ++ lit " Focus on the key points and main ideas:" ++ [10%N; 10%N] ++ text
    ∧ (length = JString (lit "short") → sentences = lit "1-2 sentences")
    ∧ (length = JString (lit "long") → sentences = lit "4-6 sentences")
    ∧ (length ≠ JString (lit "short") → length ≠ JString (lit "long") →
       sentences = lit "2-4 sentences")
    ∧ (tone = JString (lit "professional") →
       clause = lit "Use a professional and formal tone.")
    ∧ (tone = JString (lit "casual") →
       clause = lit "Use a casual and conversational tone.")
    ∧ (tone = JString (lit "academic") →
       clause = lit "Use an academic and scholarly tone.")
    ∧ (tone = JString (lit "creative") →
       clause = lit "Use a creative and engaging tone.")
    ∧ (tone ∉ map JString tones → clause = []).
Proof.
  exists (getSummaryLength length), (getToneInstruction tone).
  split; [reflexivity |].
  split; [by intros -> |]. split; [by intros -> |].
  split.
  { intros H1 H2. unfold getSummaryLength.
    apply jsvalue_eqb_string_false in H1, H2. by rewrite H1, H2. }
  do 4 (split; [by intros -> |]).
  intros Hnot. unfold getToneInstruction.
  assert (∀ s, lit s ∈ tones → jsvalue_eqb_string tone s = false) as Hf.
  { intros s Hs. apply jsvalue_eqb_string_false. intros ->.
    apply Hnot. apply list_elem_of_fmap. by exists (lit s). }
  rewrite !Hf; [reflexivity | | | |]; unfold tones; set_solver.
Qed.

Lemma C2_witness :
  buildPrompt (lit "The text.") (JString (lit "casual")) JUndefined
  = lit "Summarize this content in 2-4 sentences. Use a casual and conversational tone. Focus on the key points and main ideas:"
    ++ [10%N; 10%N] ++ lit "The text."
  ∧ buildPrompt (lit "The text.") JUndefined (JString (lit "long"))
  = lit "Summarize this content in 4-6 sentences.  Focus on the key points and main ideas:"
    ++ [10%N; 10%N] ++ lit "The text.".
Proof.
  split.
  - destruct (C2_prompt_format (lit "The text.") (JString (lit "casual")) JUndefined)
      as (sentences & clause & E & _ & _ & Hs & _ & Hc & _).
    rewrite E, (Hs ltac:(discriminate) ltac:(discriminate)), (Hc eq_refl).
    reflexivity.
  - destruct (C2_prompt_format (lit "The text.") JUndefined (JString (lit "long")))
      as (sentences & clause & E & _ & Hs & _ & _ & _ & _ & _ & Hc).
    rewrite E, (Hs eq_refl), Hc; [reflexivity |].
    unfold tones. cbn. intros H.
    repeat (apply elem_of_cons in H; destruct H as [H | H]; [discriminate H |]).
    by apply elem_of_nil in H.
Defined.

(* ================================================================== *)
(** * Validation                                                       *)
(* ================================================================== *)

Lemma check_fields ok f m :
  lit f ∈ field_names →
  Forall (λ e, field e ∈ field_names) (check ok f m).
Proof.
  intros Hf. destruct ok; cbn; [constructor |].
  constructor; [exact Hf | constructor].
Qed.

Lemma validate_fields req :
  Forall (λ e, field e ∈ field_names) (validateSummarizeRequest req).
Proof.
  unfold validateSummarizeRequest, validate_text, validate_optional.
  repeat apply Forall_app_2;
    try (destruct (body_tone req)); try (destruct (body_length req));
    try apply check_fields; try constructor; unfold field_names; set_solver.
Qed.

(** A request that fails validation is answered at once. *)
Lemma summarize_invalid development provider req :
  validateSummarizeRequest req ≠ [] →
  summarize development provider req =
    ([], {| status := 400;
            body := ValidationFailed (lit "Validation failed")
                      (validateSummarizeRequest req) |}).
Proof.
  intros Hne. unfold summarize.
  destruct (validateSummarizeRequest req); [done | reflexivity].
Qed.

Lemma check_false f m : check false f m ≠ [].
Proof. discriminate. Qed.

Lemma app_not_nil_l {A} (l1 l2 : list A) : l1 ≠ [] → l1 ++ l2 ≠ [].
Proof. destruct l1; [done | discriminate]. Qed.

Lemma app_not_nil_r {A} (l1 l2 : list A) : l2 ≠ [] → l1 ++ l2 ≠ [].
Proof. destruct l1, l2; done || discriminate. Qed.

Lemma invalid_has_errors req : invalid req → validateSummarizeRequest req ≠ [].
Proof.
  unfold validateSummarizeRequest, validate_text.
  intros [H | [H | [H | [[Hp H] | [Hp H]]]]].
  - rewrite H. apply app_not_nil_l, app_not_nil_l, check_false.
  - apply app_not_nil_l, app_not_nil_r, app_not_nil_l.
    destruct (Z.leb_spec 200 (Z.of_nat (isLength_count (stringify (body_text req)))));
      [lia | apply check_false].
  - apply app_not_nil_l, app_not_nil_r, app_not_nil_r.
    destruct (Z.leb_spec (Z.of_nat (isLength_count (stringify (body_text req)))) 10000);
      [lia | apply check_false].
  - apply app_not_nil_r, app_not_nil_l.
    unfold validate_optional, isIn.
    destruct (body_tone req); [done | |];
      (rewrite bool_decide_eq_false_2; [apply check_false | exact H]).
  - apply app_not_nil_r, app_not_nil_r.
    unfold validate_optional, isIn.
    destruct (body_length req); [done | |];
      (rewrite bool_decide_eq_false_2; [apply check_false | exact H]).
Qed.

(** A request that the validators reject is answered at once with 400,
    the error "Validation failed" and a non-empty list of details that
    each name a field of the request; no prompt is sent to the provider. *)
Lemma invalid_request_rejected
  (development : bool) (provider : jsstring -> provider_outcome)
  (req : request) :
  invalid req →
  ∃ details,
    summarize development provider req
    = ([], {| status := 400;
              body := ValidationFailed (lit "Validation failed") details |})
    ∧ details ≠ []
    ∧ Forall (λ e, field e ∈ [lit "text"; lit "tone"; lit "length"]) details.
Proof.
  intros Hinv. exists (validateSummarizeRequest req).
  pose proof (invalid_has_errors req Hinv) as Hne.
  split; [by apply summarize_invalid |].
  split; [exact Hne | apply validate_fields].
Qed.

(** C7. The code at a tone that is present and outside its enumeration:
    the array ["casual"] is none of the four tones, yet the request passes
    validation, since [isIn] is run on the element of the array and the
    chain on [tone] has no [isString] as the chain on [text] has.  The
    handler then sends a prompt to the provider, whatever the provider is,
    with an empty tone clause, and a completion is answered with 200 and
    the array in the settings: not with 400, and not without a call. *)
Theorem C7_array_tone_reaches_provider :
  body_tone array_tone_request ≠ JUndefined
  ∧ (body_tone array_tone_request ∉ map JString tones)
  ∧ validateSummarizeRequest array_tone_request = []
  ∧ (∀ development provider,
       (summarize development provider array_tone_request).1
       = [buildPrompt sample_text (JOther (lit "casual"))
            (JString (lit "medium"))])
  ∧ getToneInstruction (JOther (lit "casual")) = []
  ∧ ∃ data,
      (summarize false (λ _, Completed (lit "A summary."))
         array_tone_request).2
      = {| status := 200; body := Success data |}
      ∧ settings_tone data = JOther (lit "casual").
Proof.
  assert (validateSummarizeRequest array_tone_request = []) as Hv
    by (vm_compute; reflexivity).
  split; [discriminate |].
  split.
  { cbn. intros H.
    repeat (apply elem_of_cons in H; destruct H as [H | H]; [discriminate H |]).
    by apply elem_of_nil in H. }
  split; [exact Hv |].
  split.
  { intros development provider. unfold summarize. rewrite Hv.
    cbn [array_tone_request body_text body_tone body_length default_to].
    by destruct (provider _). }
  split; [reflexivity |].
  eexists. split.
  - rewrite (summarize_completed false _ array_tone_request sample_text
               (lit "A summary.") Hv eq_refl eq_refl).
    reflexivity.
  - reflexivity.
Qed.

(** C9. A request with a text of 200 to 10000 characters and neither tone
    nor length is valid; the prompt is built with the tone "professional"
    and the length "medium", and when the provider answers, the response
    is a success whose settings are these two values. *)
Theorem C9_defaults
  (development : bool) (provider : jsstring -> provider_outcome)
  (text : jsstring) (content : jsstring) :
  let req := {| body_text := JString text;
                body_tone := JUndefined;
                body_length := JUndefined |} in
  let prompt := buildPrompt text (JString (lit "professional"))
                  (JString (lit "medium")) in
  200 <= Z.of_nat (isLength_count text) <= 10000 →
  provider prompt = Completed content →
  ∃ data,
    summarize development provider req
    = ([prompt], {| status := 200; body := Success data |})
    ∧ settings_tone data = JString (lit "professional")
    ∧ settings_length data = JString (lit "medium").
Proof.
  intros req prompt Hlen Hp.
  assert (validateSummarizeRequest req = []) as Hv.
  { unfold validateSummarizeRequest, validate_text, req.
    cbn [body_text body_tone body_length stringify isString validate_optional].
    rewrite (proj2 (Z.leb_le 200 _)) by lia.
    rewrite (proj2 (Z.leb_le _ 10000)) by lia.
    reflexivity. }
  eexists. split.
  - apply (summarize_completed development provider req text content Hv eq_refl Hp).
  - split; reflexivity.
Qed.

Lemma C9_witness :
  ∃ data,
    summarize false (λ _, Completed (lit "A summary.")) sample_request
    = ([buildPrompt sample_text (JString (lit "professional"))
          (JString (lit "medium"))],
       {| status := 200; body := Success data |})
    ∧ settings_tone data = JString (lit "professional")
    ∧ settings_length data = JString (lit "medium").
Proof.
  apply (C9_defaults false (λ _, Completed (lit "A summary.")) sample_text
           (lit "A summary.")).
  - vm_compute. split; discriminate.
  - reflexivity.
Defined.

(* ================================================================== *)
(** * The rate limiter                                                 *)
(* ================================================================== *)

Section Limiter.

Variable env : environment.

Lemma limiter_inv_later t now st :
  t <= now → limiter_inv env t st → limiter_inv env now st.
Proof.
  intros Hle Hinv client hits resetTime Hst.
  specialize (Hinv client hits resetTime Hst). lia.
Qed.

Lemma limiter_inv_empty t : limiter_inv env t ∅.
Proof. intros client hits resetTime Hst. by rewrite lookup_empty in Hst. Qed.

(** The entry written by a hit, and the decision that goes with it. *)
Lemma limiter_hit_entry now client st :
  ∃ hits resetTime,
    limiter_hit env now client st
    = (<[client := (hits, resetTime)]> st,
       if max env <? hits then Denied (resetTime - now) else Allowed)
    ∧ (resetTime = now + windowMs env
       ∨ ∃ hits', st !! client = Some (hits', resetTime) ∧ now < resetTime).
Proof.
  unfold limiter_hit.
  destruct (st !! client) as [[hits resetTime]|] eqn:Hst.
  - destruct (Z.leb_spec resetTime now).
    + eexists _, _. split; [reflexivity | by left].
    + eexists _, _. split; [reflexivity |]. right. by exists hits.
  - eexists _, _. split; [reflexivity | by left].
Qed.

Lemma limiter_hit_inv now client st :
  limiter_inv env now st → limiter_inv env now (limiter_hit env now client st).1.
Proof.
  intros Hinv.
  destruct (limiter_hit_entry now client st) as (hits & resetTime & -> & Hr).
  cbn [fst]. intros c h r Hc.
  destruct (decide (client = c)) as [-> | Hne].
  - rewrite lookup_insert_eq in Hc. injection Hc as <- <-.
    destruct Hr as [-> | (hits' & Hst & _)]; [lia |].
    by apply (Hinv c hits').
  - rewrite lookup_insert_ne in Hc by done. by apply (Hinv c h).
Qed.

Lemma limiter_run_inv reqs : ∀ t now client st,
  chronological t (reqs ++ [(now, client)]) →
  limiter_inv env t st →
  limiter_inv env now (limiter_run env reqs st).1.
Proof.
  induction reqs as [|[t1 c1] rest IH]; intros t now client st Hch Hinv.
  - cbn in *. destruct Hch as [Hle _]. by apply (limiter_inv_later t).
  - cbn in Hch. destruct Hch as [Hle Hch]. cbn [limiter_run].
    pose proof (limiter_hit_inv t1 c1 st (limiter_inv_later t t1 st Hle Hinv))
      as Hinv1.
    destruct (limiter_hit env t1 c1 st) as [st1 d1]. cbn [fst] in Hinv1.
    specialize (IH t1 now client st1 Hch Hinv1).
    destruct (limiter_run env rest st1) as [st2 ds]. exact IH.
Qed.

(** The time left at a denial is at most the window. *)
Lemma limiter_denied_remaining now client st st' remainingMs :
  limiter_inv env now st →
  limiter_hit env now client st = (st', Denied remainingMs) →
  remainingMs <= windowMs env.
Proof.
  intros Hinv Hhit.
  destruct (limiter_hit_entry now client st) as (hits & resetTime & E & Hr).
  rewrite E in Hhit. injection Hhit as _ Hd.
  destruct (max env <? hits); [| discriminate].
  injection Hd as <-.
  destruct Hr as [-> | (hits' & Hst & _)]; [lia |].
  specialize (Hinv client hits' resetTime Hst). lia.
Qed.

End Limiter.

Lemma ceil_div_mono a b : a <= b → ceil_div a 1000 <= ceil_div b 1000.
Proof.
  intros Hle. unfold ceil_div.
  assert (- b / 1000 <= - a / 1000) by (apply Z.div_le_mono; lia). lia.
Qed.

Lemma ceil_div_bounds a : a <= 1000 * ceil_div a 1000 < a + 1000.
Proof.
  unfold ceil_div.
  pose proof (Z.div_mod (- a) 1000 ltac:(lia)).
  pose proof (Z.mod_pos_bound (- a) 1000 ltac:(lia)). lia.
Qed.

Lemma C3_counterexample : ¬ spec_retryAfter_is_remaining.
Proof.
  intros H.
  destruct (H one_per_window (λ _, Completed []) [(0, a_client)] 600000 a_client
              sample_request
              (<[a_client := (2, 900000)]> (<[a_client := (1, 900000)]> ∅))
              300000) as [error E].
  - cbn. lia.
  - reflexivity.
  - vm_compute in E. discriminate E.
Qed.

(* ================================================================== *)
(** * Binary64 arithmetic: rounding and its error                      *)
(* ================================================================== *)

Module NumberFacts.
Import JsNumber.

Lemma shr_1_inv N D mrs : shr_inv N D mrs → shr_inv N (2 * D) (shr_1 mrs).
Proof.
  destruct mrs as [m r s]. unfold shr_inv. cbn [shr_m shr_r shr_s].
  intros (HD & Hm & Hrem & Hr & Hs).
  assert (orb r s = true ↔ N - D * m ≠ 0) as Hrs.
  { rewrite orb_true_iff, Hr, Hs. lia. }
  destruct m as [|[p|p|]|p]; cbn [shr_1 shr_m shr_r shr_s]; try lia;
    (split; [lia |]); (split; [lia |]); (split; [lia |]);
    rewrite Hrs; split; split; intros; try discriminate; try reflexivity; try lia.
Qed.

Lemma iter_pos_inv {A} (f : A → A) (P : Z → A → Prop) :
  (∀ n x, P n x → P (n + 1) (f x)) →
  ∀ p n x, P n x → P (n + Z.pos p) (SpecFloat.iter_pos f p x).
Proof.
  intros Hf. induction p as [p IH|p IH|]; intros n x Hx; cbn [SpecFloat.iter_pos].
  - replace (n + Z.pos p~1) with (n + 1 + Z.pos p + Z.pos p) by lia.
    apply IH, IH, Hf, Hx.
  - replace (n + Z.pos p~0) with (n + Z.pos p + Z.pos p) by lia.
    apply IH, IH, Hx.
  - apply Hf, Hx.
Qed.

Lemma shr_inv_iter N D p mrs :
  shr_inv N D mrs → shr_inv N (D * 2 ^ Z.pos p) (SpecFloat.iter_pos shr_1 p mrs).
Proof.
  intros H.
  apply (iter_pos_inv shr_1 (λ n x, 0 <= n ∧ shr_inv N (D * 2 ^ n) x))
    with (n := 0) (p := p) (x := mrs).
  - intros n x [Hn Hx]. split; [lia |].
    rewrite Z.pow_add_r by lia. replace (D * (2 ^ n * 2 ^ 1)) with (2 * (D * 2 ^ n)) by lia.
    by apply shr_1_inv.
  - split; [lia |]. by rewrite Z.pow_0_r, Z.mul_1_r.
Qed.

Lemma shr_inv_shr N D mrs e n :
  shr_inv N D mrs → 0 <= n →
  shr_inv N (D * 2 ^ n) (shr mrs e n).1 ∧ (shr mrs e n).2 = e + n.
Proof.
  intros H Hn. destruct n as [|p|p]; cbn [shr fst snd]; try lia.
  - rewrite Z.mul_1_r. split; [done | lia].
  - split; [by apply shr_inv_iter | done].
Qed.

Lemma round_nearest_even_inv N D mrs :
  shr_inv N D mrs →
  let m := round_nearest_even (shr_m mrs) (loc_of_shr_record mrs) in
  shr_m mrs <= m <= shr_m mrs + 1
  ∧ 2 * Z.abs (m * D - N) <= D
  ∧ (N - D * shr_m mrs = 0 → m = shr_m mrs).
Proof.
  destruct mrs as [m r s]. unfold shr_inv. cbn [shr_m shr_r shr_s].
  intros (HD & Hm & Hrem & Hr & Hs).
  destruct r, s; cbn [loc_of_shr_record round_nearest_even];
    try destruct (Z.even m); lia.
Qed.

Lemma fexp_binary64 e : fexp 53 1024 e = Z.max (e - 53) (-1074).
Proof. reflexivity. Qed.

Lemma digits2_pos_bounds p :
  2 ^ (Z.pos (digits2_pos p) - 1) <= Z.pos p < 2 ^ Z.pos (digits2_pos p).
Proof.
  induction p as [p IH|p IH|]; cbn [digits2_pos].
  - rewrite Pos2Z.inj_succ.
    replace (Z.succ (Z.pos (digits2_pos p)) - 1) with (Z.succ (Z.pos (digits2_pos p) - 1)) by lia.
    rewrite !Z.pow_succ_r by lia. lia.
  - rewrite Pos2Z.inj_succ.
    replace (Z.succ (Z.pos (digits2_pos p)) - 1) with (Z.succ (Z.pos (digits2_pos p) - 1)) by lia.
    rewrite !Z.pow_succ_r by lia. lia.
  - cbn. lia.
Qed.

Lemma Zdigits2_bounds m :
  0 < m → 2 ^ (Zdigits2 m - 1) <= m < 2 ^ Zdigits2 m ∧ 0 < Zdigits2 m.
Proof.
  destruct m as [|p|p]; try lia. intros _. cbn [Zdigits2].
  split; [apply digits2_pos_bounds | lia].
Qed.

Lemma Zdigits2_unique m d :
  2 ^ (d - 1) <= m < 2 ^ d → 0 < d → Zdigits2 m = d.
Proof.
  intros Hm Hd.
  assert (0 < m) as Hpos by (pose proof (Z.pow_pos_nonneg 2 (d - 1)); lia).
  destruct (Zdigits2_bounds m Hpos) as [Hb Hd'].
  destruct (Z.lt_trichotomy (Zdigits2 m) d) as [Hlt | [Heq | Hgt]]; [| done |].
  - assert (2 ^ Zdigits2 m <= 2 ^ (d - 1)) by (apply Z.pow_le_mono_r; lia). lia.
  - assert (2 ^ d <= 2 ^ (Zdigits2 m - 1)) by (apply Z.pow_le_mono_r; lia). lia.
Qed.

Lemma shr_m_of_loc m l : shr_m (shr_record_of_loc m l) = m.
Proof. by destruct l as [|[]]. Qed.

Lemma shr_inv_exact m : 0 <= m → shr_inv m 1 (shr_record_of_loc m loc_Exact).
Proof. unfold shr_inv. cbn. intros. repeat split; intros; try lia; try discriminate. Qed.

Lemma shr_inv_exact_D m D : 0 <= m → 0 < D → shr_inv (m * D) D (shr_record_of_loc m loc_Exact).
Proof. unfold shr_inv. cbn. intros. repeat split; intros; try lia; try discriminate. Qed.

Lemma divides_small_remainder N P m :
  0 < P → 0 <= N - P * m < P → (P | N) → N - P * m = 0.
Proof.
  intros HP Hrem [c ->].
  assert (0 <= (c - m) * P < P) as H by lia.
  assert (c - m = 0) as Hc by nia. nia.
Qed.

Lemma binary_round_aux_normal sx N D mx ex lx :
  shr_inv N D (shr_record_of_loc mx lx) →
  2 ^ 52 <= mx →
  -1074 <= ex + (Zdigits2 mx - 53) →
  ex + (Zdigits2 mx - 53) + 1 <= 971 →
  ∃ m e,
    binary_round_aux 53 1024 sx mx ex lx = S754_finite sx m e
    ∧ 2 ^ 52 <= Z.pos m < 2 ^ 53
    ∧ ex + (Zdigits2 mx - 53) <= e <= ex + (Zdigits2 mx - 53) + 1
    ∧ 2 * Z.abs (Z.pos m * 2 ^ (e - ex) * D - N) <= 2 ^ (e - ex) * D
    ∧ ((D * 2 ^ (Zdigits2 mx - 53) | N) → Z.pos m * 2 ^ (e - ex) * D = N).
Proof.
  intros Hinv Hmx Hlo Hhi.
  set (d := Zdigits2 mx) in *. set (k := d - 53) in *.
  assert (0 < mx) as Hpos by lia.
  destruct (Zdigits2_bounds mx Hpos) as [Hd Hd0]. fold d in Hd, Hd0.
  assert (53 <= d) as Hd53.
  { destruct (Z.le_gt_cases 53 d); [done |].
    assert (2 ^ d <= 2 ^ 52) by (apply Z.pow_le_mono_r; lia). lia. }
  assert (0 <= k) as Hk by lia.
  assert (2 ^ d = 2 ^ k * 2 ^ 53) as Hdk.
  { rewrite <- Z.pow_add_r by lia. f_equal. lia. }
  assert (2 ^ (d - 1) = 2 ^ k * 2 ^ 52) as Hdk'.
  { rewrite <- Z.pow_add_r by lia. f_equal. lia. }
  assert (0 < 2 ^ k) as Hpk by (apply Z.pow_pos_nonneg; lia).
  unfold binary_round_aux, shr_fexp.
  fold d. rewrite fexp_binary64.
  replace (Z.max (d + ex - 53) (-1074) - ex) with k by lia.
  destruct (shr_inv_shr N D _ ex k Hinv Hk) as [Hinv1 He1].
  destruct (shr (shr_record_of_loc mx lx) ex k) as [mrs1 e1].
  cbn [fst snd] in Hinv1, He1. subst e1.
  destruct (round_nearest_even_inv N (D * 2 ^ k) mrs1 Hinv1) as (Hmr & Herr & Hex).
  set (mr := round_nearest_even (shr_m mrs1) (loc_of_shr_record mrs1)) in *.
  (* the truncated mantissa has 53 digits *)
  assert (2 ^ 52 <= shr_m mrs1 < 2 ^ 53) as Hm1.
  { destruct Hinv as (HD & _ & Hrem & _). rewrite shr_m_of_loc in Hrem.
    destruct Hinv1 as (_ & Hm1 & Hrem1 & _).
    split.
    - assert (D * 2 ^ k * 2 ^ 52 < D * 2 ^ k * (shr_m mrs1 + 1)); [| nia].
      nia.
    - assert (D * 2 ^ k * shr_m mrs1 < D * 2 ^ k * 2 ^ 53); [| nia].
      nia. }
  assert (0 < D) as HD by (destruct Hinv as (HD & _); done).
  clearbody mr.
  destruct (Z.eq_dec mr (2 ^ 53)) as [Hcarry | Hnocarry].
  - (* the rounded mantissa is 2^53: one more shift *)
    rewrite (Zdigits2_unique mr 54) by (try rewrite Hcarry; lia).
    rewrite fexp_binary64.
    replace (Z.max (54 + (ex + k) - 53) (-1074) - (ex + k)) with 1 by lia.
    assert (mr = 9007199254740992) as Hmr9 by (rewrite Hcarry; reflexivity).
    rewrite Hmr9.
    cbn [shr shr_record_of_loc SpecFloat.iter_pos shr_1 shr_m].
    replace (ex + k + 1 <=? 1024 - 53) with true by (symmetry; apply Z.leb_le; lia).
    eexists _, _. split; [reflexivity |].
    split; [lia |]. split; [lia |].
    replace (ex + k + 1 - ex) with (k + 1) by lia.
    rewrite Z.pow_add_r by lia.
    split; [nia |]. intros Hdiv.
    assert (N - D * 2 ^ k * shr_m mrs1 = 0) as Hz.
    { destruct Hinv1 as (HD1 & _ & Hrem1 & _).
      by apply divides_small_remainder. }
    specialize (Hex Hz). lia.
  - assert (2 ^ 52 <= mr < 2 ^ 53) as Hmr' by lia.
    rewrite (Zdigits2_unique mr 53) by lia.
    rewrite fexp_binary64.
    replace (Z.max (53 + (ex + k) - 53) (-1074) - (ex + k)) with 0 by lia.
    cbn [shr]. rewrite shr_m_of_loc.
    destruct mr as [|m|m] eqn:Emr; try lia.
    replace (ex + k <=? 1024 - 53) with true by (symmetry; apply Z.leb_le; lia).
    eexists _, _. split; [reflexivity |].
    split; [lia |]. split; [lia |].
    replace (ex + k - ex) with k by lia.
    split; [nia |]. intros Hdiv.
    assert (N - D * 2 ^ k * shr_m mrs1 = 0) as Hz.
    { destruct Hinv1 as (HD1 & _ & Hrem1 & _).
      by apply divides_small_remainder. }
    specialize (Hex Hz). nia.
Qed.

Lemma iter_xO m p : Z.pos (Pos.iter xO m p) = Z.pos m * 2 ^ Z.pos p.
Proof.
  induction p as [|p IH] using Pos.peano_ind.
  - cbn. lia.
  - rewrite Pos.iter_succ, Pos2Z.inj_succ, Z.pow_succ_r by lia.
    rewrite Pos2Z.inj_xO, IH. lia.
Qed.

Lemma shl_align_spec m ex ez :
  ez <= ex →
  Z.pos (shl_align m ex ez).1 = Z.pos m * 2 ^ (ex - ez) ∧ (shl_align m ex ez).2 = ez.
Proof.
  intros Hle. unfold shl_align.
  destruct (ez - ex) as [|p|p] eqn:E; try lia; cbn [fst snd].
  - replace (ex - ez) with 0 by lia. split; lia.
  - rewrite iter_xO. replace (ex - ez) with (Z.pos p) by lia. done.
Qed.

Lemma Zdigits2_shift v a :
  0 < v → 0 <= a → Zdigits2 (v * 2 ^ a) = Zdigits2 v + a.
Proof.
  intros Hv Ha. destruct (Zdigits2_bounds v Hv) as [Hb Hd].
  assert (0 < 2 ^ a) by (apply Z.pow_pos_nonneg; lia).
  apply Zdigits2_unique; [| lia].
  replace (Zdigits2 v + a - 1) with (Zdigits2 v - 1 + a) by lia.
  rewrite !Z.pow_add_r by lia. nia.
Qed.

Lemma Zdigits2_le_53 v : 0 < v < 2 ^ 53 → Zdigits2 v <= 53.
Proof.
  intros Hv. destruct (Zdigits2_bounds v ltac:(lia)) as [Hb Hd].
  destruct (Z.le_gt_cases (Zdigits2 v) 53); [done |].
  assert (2 ^ 53 <= 2 ^ (Zdigits2 v - 1)) by (apply Z.pow_le_mono_r; lia). lia.
Qed.

(** Two normalized mantissas of one value. *)
Lemma normalized_unique m e v a :
  let dv := Zdigits2 v in
  0 < v → dv <= 53 → 0 <= a → 0 <= e + a →
  2 ^ 52 <= m < 2 ^ 53 →
  dv - 53 <= e <= dv - 52 →
  m * 2 ^ (e + a) = v * 2 ^ a →
  e = dv - 53 ∧ m = v * 2 ^ (53 - dv).
Proof.
  intros dv Hv Hdv Ha Hea Hm He Heq.
  destruct (Zdigits2_bounds v Hv) as [Hb Hd]. fold dv in Hb, Hd.
  assert (0 < 2 ^ a) by (apply Z.pow_pos_nonneg; lia).
  assert (e = dv - 53) as ->.
  { destruct (Z.eq_dec e (dv - 53)); [done |]. exfalso.
    assert (e = dv - 52) as -> by lia.
    assert (2 ^ 52 * 2 ^ (dv - 52 + a) = 2 ^ dv * 2 ^ a) as E.
    { rewrite <- !Z.pow_add_r by lia. f_equal. lia. }
    assert (0 < 2 ^ (dv - 52 + a)) by (apply Z.pow_pos_nonneg; lia).
    nia. }
  split; [done |].
  assert (2 ^ a = 2 ^ (53 - dv) * 2 ^ (dv - 53 + a)) as E.
  { rewrite <- Z.pow_add_r by lia. f_equal. lia. }
  assert (0 < 2 ^ (dv - 53 + a)) by (apply Z.pow_pos_nonneg; lia).
  rewrite E in Heq. nia.
Qed.

(** Rounding an integer below [2^53], given with a scale, normalizes it. *)
Lemma binary_round_integer sx (m : positive) (a v : Z) :
  0 <= a <= 1000 → Z.pos m = v * 2 ^ a → 0 < v < 2 ^ 53 →
  ∃ m', binary_round prec emax sx m (- a) = S754_finite sx m' (Zdigits2 v - 53)
        ∧ Z.pos m' = v * 2 ^ (53 - Zdigits2 v).
Proof.
  intros Ha Hm Hv.
  pose proof (Zdigits2_le_53 v Hv) as Hdv.
  destruct (Zdigits2_bounds v ltac:(lia)) as [Hb Hd].
  assert (Zdigits2 (Z.pos m) = Zdigits2 v + a) as Hdm.
  { rewrite Hm. apply Zdigits2_shift; lia. }
  cbn [Zdigits2] in Hdm.
  unfold binary_round, prec, emax. rewrite Hdm, fexp_binary64.
  replace (Z.max (Zdigits2 v + a + - a - 53) (-1074)) with (Zdigits2 v - 53) by lia.
  assert (0 < 2 ^ a) by (apply Z.pow_pos_nonneg; lia).
  destruct (Z.le_gt_cases (- a) (Zdigits2 v - 53)) as [Hge | Hlt].
  - (* at least 53 digits: no alignment *)
    assert (shl_align m (- a) (Zdigits2 v - 53) = (m, - a)) as ->.
    { unfold shl_align. destruct (Zdigits2 v - 53 - - a) eqn:E; try lia; done. }
    destruct (binary_round_aux_normal sx (Z.pos m) 1 (Z.pos m) (- a) loc_Exact)
      as (m' & e & -> & Hm' & He & _ & Hex).
    + apply shr_inv_exact. lia.
    + assert (2 ^ 52 * 1 <= 2 ^ (Zdigits2 v - 1) * 2 ^ a); [| nia].
      rewrite <- Z.pow_add_r by lia. rewrite Z.mul_1_r. apply Z.pow_le_mono_r; lia.
    + cbn [Zdigits2]. rewrite Hdm. lia.
    + cbn [Zdigits2]. rewrite Hdm. lia.
    + cbn [Zdigits2] in He, Hex. rewrite Hdm in He, Hex.
      assert (Z.pos m' * 2 ^ (e - - a) * 1 = Z.pos m) as Heq.
      { apply Hex. rewrite Hm, Z.mul_1_l.
        exists (v * 2 ^ (a - (Zdigits2 v + a - 53))).
        rewrite <- Z.mul_assoc, <- Z.pow_add_r by lia. do 2 f_equal. lia. }
      destruct (normalized_unique (Z.pos m') e v a) as [-> Hmv]; try lia.
      { replace (e + a) with (e - - a) by lia. lia. }
      exists m'. done.
  - (* fewer than 53 digits: the mantissa is aligned to 53 digits *)
    destruct (shl_align_spec m (- a) (Zdigits2 v - 53) ltac:(lia)) as [Hmz Hez].
    destruct (shl_align m (- a) (Zdigits2 v - 53)) as [mz ez].
    cbn [fst snd] in Hmz, Hez. subst ez.
    assert (Z.pos mz = v * 2 ^ (53 - Zdigits2 v)) as Hmz'.
    { rewrite Hmz, Hm, <- Z.mul_assoc, <- Z.pow_add_r by lia. do 2 f_equal. lia. }
    assert (2 ^ 52 <= Z.pos mz < 2 ^ 53) as Hmzb.
    { rewrite Hmz'.
      assert (2 ^ 52 = 2 ^ (Zdigits2 v - 1) * 2 ^ (53 - Zdigits2 v)) as ->.
      { rewrite <- Z.pow_add_r by lia. f_equal. lia. }
      assert (2 ^ 53 = 2 ^ Zdigits2 v * 2 ^ (53 - Zdigits2 v)) as ->.
      { rewrite <- Z.pow_add_r by lia. f_equal. lia. }
      assert (0 < 2 ^ (53 - Zdigits2 v)) by (apply Z.pow_pos_nonneg; lia).
      nia. }
    assert (Zdigits2 (Z.pos mz) = 53) as Hdz by (apply Zdigits2_unique; lia).
    destruct (binary_round_aux_normal sx (Z.pos mz) 1 (Z.pos mz) (Zdigits2 v - 53) loc_Exact)
      as (m' & e & -> & Hm' & He & _ & Hex).
    + apply shr_inv_exact. lia.
    + lia.
    + rewrite Hdz. lia.
    + rewrite Hdz. lia.
    + rewrite Hdz in He, Hex.
      assert (Z.pos m' * 2 ^ (e - (Zdigits2 v - 53)) * 1 = Z.pos mz) as Heq.
      { apply Hex. exists (Z.pos mz). cbn. lia. }
      assert (e = Zdigits2 v - 53) as ->.
      { destruct (Z.eq_dec e (Zdigits2 v - 53)); [done |].
        replace (e - (Zdigits2 v - 53)) with 1 in Heq by lia. lia. }
      exists m'. split; [done |].
      rewrite Z.sub_diag in Heq. lia.
Qed.

Lemma is_norm_mantissa x sx v m e :
  0 < v < 2 ^ 53 → is_norm x sx v → x = S754_finite sx m e →
  e = Zdigits2 v - 53 ∧ Z.pos m = v * 2 ^ (53 - Zdigits2 v)
  ∧ 2 ^ 52 <= Z.pos m < 2 ^ 53.
Proof.
  intros Hv (m' & -> & Hm') [= <- <-].
  split; [done |]. split; [done |]. rewrite Hm'.
  pose proof (Zdigits2_le_53 v Hv) as Hdv.
  destruct (Zdigits2_bounds v ltac:(lia)) as [Hb Hd].
  assert (2 ^ 52 = 2 ^ (Zdigits2 v - 1) * 2 ^ (53 - Zdigits2 v)) as ->.
  { rewrite <- Z.pow_add_r by lia. f_equal. lia. }
  assert (2 ^ 53 = 2 ^ Zdigits2 v * 2 ^ (53 - Zdigits2 v)) as ->.
  { rewrite <- Z.pow_add_r by lia. f_equal. lia. }
  assert (0 < 2 ^ (53 - Zdigits2 v)) by (apply Z.pow_pos_nonneg; lia).
  nia.
Qed.

Lemma is_norm_unique x y sx v : is_norm x sx v → is_norm y sx v → x = y.
Proof.
  intros (m & -> & Hm) (m' & -> & Hm'). f_equal.
  apply Pos2Z.inj. by rewrite Hm, Hm'.
Qed.

Lemma binary_round_norm sx (m : positive) (a v : Z) :
  0 <= a <= 1000 → Z.pos m = v * 2 ^ a → 0 < v < 2 ^ 53 →
  is_norm (binary_round prec emax sx m (- a)) sx v.
Proof. intros Ha Hm Hv. by apply binary_round_integer. Qed.

Lemma of_Z_pos v : 0 < v < 2 ^ 53 → is_norm (of_Z v) false v.
Proof.
  intros Hv. destruct v as [|p|p]; try lia.
  apply (binary_round_norm false p 0 (Z.pos p)); lia.
Qed.

Lemma of_Z_neg v : 0 < v < 2 ^ 53 → is_norm (of_Z (- v)) true v.
Proof.
  intros Hv. destruct v as [|p|p]; try lia.
  apply (binary_round_norm true p 0 (Z.pos p)); lia.
Qed.

(** The difference of two integers below [2^53] is exact. *)
Lemma sub_of_Z o s :
  0 <= o < 2 ^ 53 → 0 <= s < 2 ^ 53 → sub (of_Z o) (of_Z s) = of_Z (o - s).
Proof.
  intros Ho Hs.
  destruct (Z.eq_dec s 0) as [-> | Hs0].
  { rewrite Z.sub_0_r. destruct (Z.eq_dec o 0) as [-> | Ho0]; [reflexivity |].
    destruct (of_Z_pos o ltac:(lia)) as (m & -> & _). reflexivity. }
  destruct (Z.eq_dec o 0) as [-> | Ho0].
  { destruct (of_Z_pos s ltac:(lia)) as (m & E & Hm).
    apply (is_norm_unique _ _ true s); [| apply (of_Z_neg s); lia].
    rewrite E. exists m. done. }
  pose proof (of_Z_pos o ltac:(lia)) as (mo & Eo & Hmo).
  pose proof (of_Z_pos s ltac:(lia)) as (ms & Es & Hms).
  pose proof (Zdigits2_le_53 o ltac:(lia)) as Hdo.
  pose proof (Zdigits2_le_53 s ltac:(lia)) as Hds.
  destruct (Zdigits2_bounds o ltac:(lia)) as [_ Hdo0].
  destruct (Zdigits2_bounds s ltac:(lia)) as [_ Hds0].
  rewrite Eo, Es. unfold sub. cbn [SFsub cond_Zopp].
  set (ez := Z.min (Zdigits2 o - 53) (Zdigits2 s - 53)).
  destruct (shl_align_spec mo (Zdigits2 o - 53) ez ltac:(lia)) as [-> _].
  destruct (shl_align_spec ms (Zdigits2 s - 53) ez ltac:(lia)) as [-> _].
  assert (Z.pos mo * 2 ^ (Zdigits2 o - 53 - ez) = o * 2 ^ (- ez)) as ->.
  { rewrite Hmo, <- Z.mul_assoc, <- Z.pow_add_r by lia. do 2 f_equal. lia. }
  assert (Z.pos ms * 2 ^ (Zdigits2 s - 53 - ez) = s * 2 ^ (- ez)) as ->.
  { rewrite Hms, <- Z.mul_assoc, <- Z.pow_add_r by lia. do 2 f_equal. lia. }
  assert (0 < 2 ^ (- ez)) as Hp by (apply Z.pow_pos_nonneg; lia).
  replace (o * 2 ^ (- ez) - s * 2 ^ (- ez)) with ((o - s) * 2 ^ (- ez)) by lia.
  replace ez with (- (- ez)) at 2 by lia.
  destruct (Z.lt_trichotomy (o - s) 0) as [Hneg | [Hz | Hposd]].
  - destruct ((o - s) * 2 ^ (- ez)) as [|p|p] eqn:E; try nia.
    apply (is_norm_unique _ _ true (s - o)).
    + cbn [binary_normalize]. apply binary_round_norm; lia.
    + replace (o - s) with (- (s - o)) by lia. apply of_Z_neg. lia.
  - rewrite Hz. reflexivity.
  - destruct ((o - s) * 2 ^ (- ez)) as [|p|p] eqn:E; try nia.
    apply (is_norm_unique _ _ false (o - s)).
    + cbn [binary_normalize]. apply binary_round_norm; lia.
    + apply of_Z_pos. lia.
Qed.

Lemma new_location_inv N D q r :
  0 < D → 0 <= q → N = q * D + r → 0 <= r < D →
  shr_inv N D (shr_record_of_loc q (new_location D r)).
Proof.
  intros HD Hq HN Hr. unfold new_location, new_location_even, new_location_odd.
  assert (N - D * q = r) as Hrem by lia.
  destruct (Z.even D) eqn:Heven.
  - destruct (Z.eqb_spec r 0) as [-> | Hr0].
    + unfold shr_inv. cbn. rewrite Hrem. repeat split; intros; try lia; discriminate.
    + destruct (Z.compare_spec (2 * r) D); unfold shr_inv; cbn; rewrite Hrem;
        repeat split; intros; try lia; try discriminate.
  - assert (Z.odd D = true) as Hodd by (rewrite <- Z.negb_even, Heven; done).
    apply Z.odd_spec in Hodd. destruct Hodd as [c Hc].
    destruct (Z.eqb_spec r 0) as [-> | Hr0].
    + unfold shr_inv. cbn. rewrite Hrem. repeat split; intros; try lia; discriminate.
    + destruct (Z.compare_spec (2 * r + 1) D); unfold shr_inv; cbn; rewrite Hrem;
        repeat split; intros; try lia; try discriminate.
Qed.

(** The correctly rounded quotient of two normalized Numbers. *)
Lemma div_normalized sx sy mx ex my ey :
  2 ^ 52 <= Z.pos mx < 2 ^ 53 → 2 ^ 52 <= Z.pos my < 2 ^ 53 →
  -400 <= ex <= 400 → -400 <= ey <= 400 →
  ∃ m j,
    div (S754_finite sx mx ex) (S754_finite sy my ey)
    = S754_finite (xorb sx sy) m (ex - ey - 53 + j)
    ∧ 2 ^ 52 <= Z.pos m < 2 ^ 53
    ∧ 0 <= j <= 2
    ∧ 2 * Z.abs (Z.pos m * 2 ^ j * Z.pos my - Z.pos mx * 2 ^ 53)
      <= 2 ^ j * Z.pos my.
Proof.
  intros Hmx Hmy Hex Hey.
  unfold div. cbn [SFdiv]. unfold SFdiv_core_binary, prec, emax.
  rewrite (Zdigits2_unique (Z.pos mx) 53), (Zdigits2_unique (Z.pos my) 53) by lia.
  rewrite fexp_binary64.
  replace (Z.min (Z.max (53 + ex - (53 + ey) - 53) (-1074)) (ex - ey))
    with (ex - ey - 53) by lia.
  replace (ex - ey - (ex - ey - 53)) with 53 by lia.
  cbv iota. rewrite Z.shiftl_mul_pow2 by lia.
  pose proof (Z.div_eucl_eq (Z.pos mx * 2 ^ 53) (Z.pos my) ltac:(lia)) as Hdiv.
  pose proof (Z.mod_pos_bound (Z.pos mx * 2 ^ 53) (Z.pos my) ltac:(lia)) as Hmod.
  unfold Z.modulo in Hmod.
  destruct (Z.div_eucl (Z.pos mx * 2 ^ 53) (Z.pos my)) as [q r].
  assert (2 ^ 52 <= q < 2 ^ 54) as Hq by nia.
  assert (53 <= Zdigits2 q <= 54) as Hdq.
  { destruct (Z.lt_ge_cases q (2 ^ 53)).
    - rewrite (Zdigits2_unique q 53); lia.
    - rewrite (Zdigits2_unique q 54); lia. }
  destruct (binary_round_aux_normal (xorb sx sy) (Z.pos mx * 2 ^ 53) (Z.pos my)
              q (ex - ey - 53) (new_location (Z.pos my) r))
    as (m & e & -> & Hm & He & Herr & _).
  - apply new_location_inv; lia.
  - lia.
  - lia.
  - lia.
  - exists m, (e - (ex - ey - 53)).
    replace (ex - ey - 53 + (e - (ex - ey - 53))) with e by lia.
    split; [done |]. split; [done |]. split; [lia |]. lia.
Qed.

(** The correctly rounded product of two normalized Numbers. *)
Lemma mul_normalized sx sy mx ex my ey :
  2 ^ 52 <= Z.pos mx < 2 ^ 53 → 2 ^ 52 <= Z.pos my < 2 ^ 53 →
  -400 <= ex <= 400 → -400 <= ey <= 400 →
  ∃ m j,
    mul (S754_finite sx mx ex) (S754_finite sy my ey)
    = S754_finite (xorb sx sy) m (ex + ey + j)
    ∧ 2 ^ 52 <= Z.pos m < 2 ^ 53
    ∧ 52 <= j <= 54
    ∧ 2 * Z.abs (Z.pos m * 2 ^ j - Z.pos mx * Z.pos my) <= 2 ^ j.
Proof.
  intros Hmx Hmy Hex Hey.
  unfold mul. cbn [SFmul]. unfold prec, emax.
  rewrite Pos2Z.inj_mul.
  assert (2 ^ 104 <= Z.pos mx * Z.pos my < 2 ^ 106) as Hp by nia.
  assert (105 <= Zdigits2 (Z.pos mx * Z.pos my) <= 106) as Hd.
  { destruct (Z.lt_ge_cases (Z.pos mx * Z.pos my) (2 ^ 105)).
    - rewrite (Zdigits2_unique _ 105); lia.
    - rewrite (Zdigits2_unique _ 106); lia. }
  destruct (binary_round_aux_normal (xorb sx sy) (Z.pos mx * Z.pos my) 1
              (Z.pos mx * Z.pos my) (ex + ey) loc_Exact)
    as (m & e & -> & Hm & He & Herr & _).
  - apply shr_inv_exact. lia.
  - lia.
  - lia.
  - lia.
  - exists m, (e - (ex + ey)).
    replace (ex + ey + (e - (ex + ey))) with e by lia.
    split; [done |]. split; [done |]. split; [lia |]. lia.
Qed.

(** A value rounded to 53 digits is within [2^-53] of it, relatively. *)
Lemma relative_error m S N :
  2 * Z.abs (m * S - N) <= S → 2 ^ 52 <= m → 0 < S →
  (2 ^ 53 - 1) * (m * S) <= 2 ^ 53 * N ∧ 2 ^ 53 * N <= (2 ^ 53 + 1) * (m * S).
Proof. intros Herr Hm HS. assert (2 ^ 52 * S <= m * S) by nia. lia. Qed.

Lemma mul_le_cancel_r a b c : 0 < c → a * c <= b * c → a <= b.
Proof. intros Hc H. nia. Qed.

Lemma mul_lt_cancel_r a b c : 0 < c → a * c < b * c → a < b.
Proof. intros Hc H. nia. Qed.

(** The arithmetic of the ratio: [d] and [o] are the two integers, [X] and
    [Y] their mantissas, [m] the mantissa of the quotient, [mp] the one of
    the product with 100 and [n] the product with 10, rounded to an
    integer. *)
Lemma ratio_rounding d o Ex Ey m J1 mp J2 A n :
  0 < d < 2 ^ 32 → 0 < o < 2 ^ 32 →
  0 < Ex → 0 < Ey → 0 < J1 → 0 < J2 → 0 < A →
  A * J1 * Ey * J2 = Ex * 2 ^ 99 →
  2 ^ 52 <= m → 2 ^ 52 <= mp →
  2 * Z.abs (m * J1 * (o * Ey) - d * Ex * 2 ^ 53) <= J1 * (o * Ey) →
  2 * Z.abs (mp * J2 - m * (100 * 2 ^ 46)) <= J2 →
  2 * A * n <= 20 * mp + A < 2 * A * (n + 1) →
  0 <= n ∧ 2 * Z.abs (n * o - 1000 * d) <= o.
Proof.
  intros Hd Ho HEx HEy HJ1 HJ2 HA Hid Hm Hmp H1 H2 H3.
  set (U := 2 ^ 53) in *.
  assert (0 < J1 * (o * Ey)) as HS1 by nia.
  destruct (relative_error m (J1 * (o * Ey)) (d * Ex * 2 ^ 53)) as [L1 R1];
    [by rewrite Z.mul_assoc | done | done |].
  destruct (relative_error mp J2 (m * (100 * 2 ^ 46))) as [L2 R2];
    [done | done | done |].
  fold U in L1, R1, L2, R2.
  set (K := J1 * J2 * Ey).
  assert (0 < K) as HK by (unfold K; nia).
  (* the product is at most the exact value, up to two roundings *)
  assert ((U - 1) * (U - 1) * (mp * o) <= U * U * (100 * d * A)) as Hup.
  { apply (mul_le_cancel_r _ _ K HK).
    assert ((U - 1) * (mp * J2) * ((U - 1) * (J1 * (o * Ey)))
            <= U * (m * (100 * 2 ^ 46)) * ((U - 1) * (J1 * (o * Ey)))) as S1.
    { apply Z.mul_le_mono_nonneg_r; [unfold U; nia | exact L2]. }
    assert (100 * 2 ^ 46 * U * ((U - 1) * (m * (J1 * (o * Ey))))
            <= 100 * 2 ^ 46 * U * (U * (d * Ex * 2 ^ 53))) as S2.
    { apply Z.mul_le_mono_nonneg_l; [unfold U; lia | exact L1]. }
    replace (U * U * (100 * d * A) * K)
      with (100 * U * U * d * (A * J1 * Ey * J2)) by (unfold K; ring).
    rewrite Hid.
    replace ((U - 1) * (U - 1) * (mp * o) * K)
      with ((U - 1) * (mp * J2) * ((U - 1) * (J1 * (o * Ey)))) by (unfold K; ring).
    etransitivity; [exact S1 |].
    replace (U * (m * (100 * 2 ^ 46)) * ((U - 1) * (J1 * (o * Ey))))
      with (100 * 2 ^ 46 * U * ((U - 1) * (m * (J1 * (o * Ey))))) by ring.
    etransitivity; [exact S2 |].
    replace (2 ^ 99) with (2 ^ 46 * 2 ^ 53) by reflexivity.
    apply Z.eq_le_incl. ring. }
  (* and at least the exact value, up to two roundings *)
  assert (U * U * (100 * d * A) <= (U + 1) * (U + 1) * (mp * o)) as Hlow.
  { apply (mul_le_cancel_r _ _ K HK).
    assert (U * (m * (100 * 2 ^ 46)) * ((U + 1) * (J1 * (o * Ey)))
            <= (U + 1) * (mp * J2) * ((U + 1) * (J1 * (o * Ey)))) as S1.
    { apply Z.mul_le_mono_nonneg_r; [unfold U; nia | exact R2]. }
    assert (100 * 2 ^ 46 * U * (U * (d * Ex * 2 ^ 53))
            <= 100 * 2 ^ 46 * U * ((U + 1) * (m * (J1 * (o * Ey))))) as S2.
    { apply Z.mul_le_mono_nonneg_l; [unfold U; lia | exact R1]. }
    replace (U * U * (100 * d * A) * K)
      with (100 * U * U * d * (A * J1 * Ey * J2)) by (unfold K; ring).
    rewrite Hid.
    replace ((U + 1) * (U + 1) * (mp * o) * K)
      with ((U + 1) * (mp * J2) * ((U + 1) * (J1 * (o * Ey)))) by (unfold K; ring).
    etransitivity; [| exact S1].
    replace (U * (m * (100 * 2 ^ 46)) * ((U + 1) * (J1 * (o * Ey))))
      with (100 * 2 ^ 46 * U * ((U + 1) * (m * (J1 * (o * Ey))))) by ring.
    etransitivity; [| exact S2].
    replace (2 ^ 99) with (2 ^ 46 * 2 ^ 53) by reflexivity.
    apply Z.eq_le_incl. ring. }
  assert (0 <= n) as Hn by nia.
  split; [exact Hn |].
  (* [n - 1/2 <= 10 p] and [10 p < n + 1/2], with the factor [A] removed *)
  assert ((U - 1) * (U - 1) * ((2 * n - 1) * o) <= 2000 * (U * U) * d) as Hhi.
  { apply (mul_le_cancel_r _ _ A HA).
    assert ((2 * n - 1) * A <= 20 * mp) as H3' by lia.
    assert ((U - 1) * (U - 1) * o * ((2 * n - 1) * A)
            <= (U - 1) * (U - 1) * o * (20 * mp)) as S.
    { apply Z.mul_le_mono_nonneg_l; [unfold U; nia | exact H3']. }
    nia. }
  assert (2000 * (U * U) * d < (U + 1) * (U + 1) * ((2 * n + 1) * o)) as Hlo.
  { apply (mul_lt_cancel_r _ _ A HA).
    assert (20 * mp < (2 * n + 1) * A) as H3' by lia.
    assert ((U + 1) * (U + 1) * o * (20 * mp)
            < (U + 1) * (U + 1) * o * ((2 * n + 1) * A)) as S.
    { apply Z.mul_lt_mono_pos_l; [unfold U; nia | exact H3']. }
    nia. }
  unfold U in Hhi, Hlo. lia.
Qed.

Lemma of_Z_100 : of_Z 100 = S754_finite false 7036874417766400 (-46).
Proof. reflexivity. Qed.

Lemma Zdigits2_le_32 v : 0 < v < 2 ^ 32 → 0 < Zdigits2 v <= 32.
Proof.
  intros Hv. destruct (Zdigits2_bounds v ltac:(lia)) as [Hb Hd].
  split; [done |].
  destruct (Z.le_gt_cases (Zdigits2 v) 32); [done |].
  assert (2 ^ 32 <= 2 ^ (Zdigits2 v - 1)) by (apply Z.pow_le_mono_r; lia). lia.
Qed.

(** [scaled_round 1] of a Number below one: its tenths, rounded half up. *)
Lemma scaled_round_tenths m e :
  e < 0 →
  2 * 2 ^ (- e) * scaled_round 1 m e <= 20 * Z.pos m + 2 ^ (- e)
  ∧ 20 * Z.pos m + 2 ^ (- e) < 2 * 2 ^ (- e) * (scaled_round 1 m e + 1).
Proof.
  intros He. unfold scaled_round.
  destruct (Z.leb_spec 0 e); [lia |].
  change (10 ^ Z.of_nat 1) with 10.
  replace (1 - e) with (Z.succ (- e)) by lia.
  rewrite Z.pow_succ_r by lia.
  assert (0 < 2 * 2 ^ (- e)) as HB.
  { assert (0 < 2 ^ (- e)) by (apply Z.pow_pos_nonneg; lia). lia. }
  replace (2 * 10 * Z.pos m) with (20 * Z.pos m) by lia.
  split.
  - apply Z.mul_div_le. exact HB.
  - apply Z.mul_succ_div_gt. exact HB.
Qed.

(** The Number computed for the ratio of two counts, and its tenths. *)
Lemma ratio_value o s :
  0 < o < 2 ^ 32 → 0 <= s < 2 ^ 32 → o ≠ s →
  ∃ mp ep,
    mul (div (sub (of_Z o) (of_Z s)) (of_Z o)) (of_Z 100)
    = S754_finite (o <? s) mp ep
    ∧ ep < 0 ∧ Z.pos mp < 2 ^ 53
    ∧ 0 <= scaled_round 1 mp ep
    ∧ 2 * Z.abs (scaled_round 1 mp ep * o - 1000 * Z.abs (o - s)) <= o.
Proof.
  intros Ho Hs Hne.
  rewrite sub_of_Z by lia.
  set (d := Z.abs (o - s)).
  assert (0 < d < 2 ^ 32) as Hd by lia.
  assert (is_norm (of_Z (o - s)) (o <? s) d) as Hx.
  { destruct (Z.ltb_spec o s).
    - replace (o - s) with (- d) by lia. apply of_Z_neg. lia.
    - replace (o - s) with d by lia. apply of_Z_pos. lia. }
  pose proof (of_Z_pos o ltac:(lia)) as Hy.
  destruct Hx as (mx & Ex & Hmx). destruct Hy as (my & Ey & Hmy).
  destruct (is_norm_mantissa _ (o <? s) d mx _ ltac:(lia)
              (ex_intro _ mx (conj Ex Hmx)) Ex) as (_ & _ & Hbx).
  destruct (is_norm_mantissa _ false o my _ ltac:(lia)
              (ex_intro _ my (conj Ey Hmy)) Ey) as (_ & _ & Hby).
  pose proof (Zdigits2_le_32 d Hd) as Hdd.
  pose proof (Zdigits2_le_32 o Ho) as Hdo.
  rewrite Ex, Ey, of_Z_100.
  destruct (div_normalized (o <? s) false mx (Zdigits2 d - 53) my (Zdigits2 o - 53))
    as (m & j1 & -> & Hm & Hj1 & H1); try lia.
  destruct (mul_normalized (xorb (o <? s) false) false m
              (Zdigits2 d - 53 - (Zdigits2 o - 53) - 53 + j1)
              7036874417766400 (-46))
    as (mp & j2 & -> & Hmp & Hj2 & H2); try lia.
  rewrite !xorb_false_r.
  set (ep := Zdigits2 d - 53 - (Zdigits2 o - 53) - 53 + j1 + -46 + j2).
  assert (ep < 0) as Hep by (unfold ep; lia).
  exists mp, ep. split; [done |]. split; [done |]. split; [lia |].
  destruct (scaled_round_tenths mp ep Hep) as [H3 H3'].
  apply (ratio_rounding d o (2 ^ (53 - Zdigits2 d)) (2 ^ (53 - Zdigits2 o))
           (Z.pos m) (2 ^ j1) (Z.pos mp) (2 ^ j2) (2 ^ (- ep)));
    try done; try (apply Z.pow_pos_nonneg; lia); try lia.
  rewrite <- !Z.pow_add_r by (unfold ep; lia). f_equal. unfold ep. lia.
Qed.

Lemma toFixed_below_one sx m e :
  e < 0 → Z.pos m < 2 ^ 53 →
  toFixed (S754_finite sx m e) 1
  = (if sx then lit "-" else []) ++ fixed_digits 1 (scaled_round 1 m e).
Proof.
  intros He Hm. unfold toFixed, at_least_1e21.
  destruct (Z.leb_spec 0 e); [lia |].
  assert (0 < 2 ^ (- e)) by (apply Z.pow_pos_nonneg; lia).
  destruct (Z.leb_spec (10 ^ 21 * 2 ^ (- e)) (Z.pos m)); [nia | done].
Qed.

Lemma fixed_digits_one n :
  0 <= n →
  fixed_digits 1 n
  = decimal (Z.to_N (n / 10)) ++ lit "." ++ decimal (Z.to_N (n mod 10)).
Proof.
  intros Hn. unfold fixed_digits. change (10 ^ Z.of_nat 1) with 10.
  do 2 f_equal.
  pose proof (Z.mod_pos_bound n 10 ltac:(lia)) as Hb.
  assert (n mod 10 = 0 ∨ n mod 10 = 1 ∨ n mod 10 = 2 ∨ n mod 10 = 3
          ∨ n mod 10 = 4 ∨ n mod 10 = 5 ∨ n mod 10 = 6 ∨ n mod 10 = 7
          ∨ n mod 10 = 8 ∨ n mod 10 = 9) as Hc by lia.
  repeat (destruct Hc as [-> | Hc]; [reflexivity |]). by rewrite Hc.
Qed.

Lemma of_Z_1000 : of_Z 1000 = S754_finite false 8796093022208000 (-43).
Proof. reflexivity. Qed.

(** [Math.ceil(w / 1000)] on Numbers is the ceiling of the exact quotient
    for every integer [w] below [2^53] in absolute value. *)
Lemma ceil_div_1000_exact w :
  Z.abs w < 2 ^ 53 →
  ceil (div (of_Z w) (of_Z 1000)) = Some (- ((- w) / 1000)).
Proof.
  intros Hw.
  destruct (Z.eq_dec w 0) as [-> | Hw0]; [reflexivity |].
  set (v := Z.abs w).
  assert (0 < v < 2 ^ 53) as Hv by lia.
  assert (is_norm (of_Z w) (w <? 0) v) as Hx.
  { destruct (Z.ltb_spec w 0).
    - replace w with (- v) by lia. apply of_Z_neg. lia.
    - replace w with v by lia. apply of_Z_pos. lia. }
  destruct Hx as (mx & Ex & Hmx).
  destruct (is_norm_mantissa _ (w <? 0) v mx _ Hv
              (ex_intro _ mx (conj Ex Hmx)) Ex) as (_ & _ & Hbx).
  pose proof (Zdigits2_le_53 v Hv) as Hdv.
  destruct (Zdigits2_bounds v ltac:(lia)) as [_ Hdv0].
  rewrite Ex, of_Z_1000.
  destruct (div_normalized (w <? 0) false mx (Zdigits2 v - 53)
              8796093022208000 (-43))
    as (m & j & -> & Hm & Hj & Herr); try lia.
  rewrite xorb_false_r.
  set (a := 63 - Zdigits2 v - j).
  replace (Zdigits2 v - 53 - -43 - 53 + j) with (- a) by (unfold a; lia).
  assert (8 <= a) as Ha8 by (unfold a; lia).
  assert (0 < 2 ^ a) as HA by (apply Z.pow_pos_nonneg; lia).
  (* the error of the quotient, in units of [2^-a] *)
  assert (Z.abs (1000 * Z.pos m - v * 2 ^ a) <= 500) as Hq.
  { assert (0 < 2 ^ (43 + j)) as HT by (apply Z.pow_pos_nonneg; lia).
    assert (Z.pos m * 2 ^ j * 8796093022208000
            = 1000 * Z.pos m * 2 ^ (43 + j)) as E1.
    { rewrite Z.pow_add_r by lia. change (2 ^ 43) with 8796093022208. ring. }
    assert (Z.pos mx * 2 ^ 53 = v * 2 ^ a * 2 ^ (43 + j)) as E2.
    { rewrite Hmx, <- !Z.mul_assoc, <- !Z.pow_add_r by (unfold a; lia).
      do 2 f_equal. unfold a. lia. }
    assert (2 ^ j * 8796093022208000 = 1000 * 2 ^ (43 + j)) as E3.
    { rewrite Z.pow_add_r by lia. change (2 ^ 43) with 8796093022208. ring. }
    rewrite E1, E2, E3 in Herr.
    replace (1000 * Z.pos m * 2 ^ (43 + j) - v * 2 ^ a * 2 ^ (43 + j))
      with ((1000 * Z.pos m - v * 2 ^ a) * 2 ^ (43 + j)) in Herr by ring.
    rewrite Z.abs_mul, (Z.abs_eq (2 ^ (43 + j))) in Herr by lia.
    nia. }
  (* the quotient is below [2^44]: its unit is at most [2^-9] *)
  assert (512 <= 2 ^ a) as HA512.
  { destruct (Z.eq_dec a 8) as [E8 | N8].
    - exfalso. rewrite E8 in Hq. change (2 ^ 8) with 256 in Hq. lia.
    - replace a with (9 + (a - 9)) by lia. rewrite Z.pow_add_r by lia.
      assert (0 < 2 ^ (a - 9)) by (apply Z.pow_pos_nonneg; lia).
      change (2 ^ 9) with 512. lia. }
  unfold ceil. destruct (Z.leb_spec 0 (- a)); [lia |].
  rewrite Z.opp_involutive. do 2 f_equal.
  pose proof (Z.div_mod (- w) 1000 ltac:(lia)) as Hdm.
  pose proof (Z.mod_pos_bound (- w) 1000 ltac:(lia)) as Hmb.
  set (k := (- w) / 1000) in *. set (r := (- w) mod 1000) in *.
  destruct (Z.ltb_spec w 0) as [Hneg | Hpos].
  - (* [w < 0]: the quotient is [- m / 2^a] and [- w = v] *)
    assert (v = 1000 * k + r) as Hvk by lia.
    replace (- Z.neg m) with (Z.pos m) by lia.
    symmetry. apply (Z.div_unique _ _ k (Z.pos m - 2 ^ a * k)); [| lia].
    left.
    assert (v * 2 ^ a = 1000 * (k * 2 ^ a) + r * 2 ^ a) as Hprod by (rewrite Hvk; ring).
    assert (0 <= r * 2 ^ a <= 999 * 2 ^ a) by nia.
    lia.
  - (* [w > 0]: the quotient is [m / 2^a] and [- w = - v] *)
    assert (- v = 1000 * k + r) as Hvk by lia.
    symmetry. apply (Z.div_unique _ _ k (- Z.pos m - 2 ^ a * k)); [| lia].
    left.
    assert (- (v * 2 ^ a) = 1000 * (k * 2 ^ a) + r * 2 ^ a) as Hprod.
    { replace (- (v * 2 ^ a)) with ((- v) * 2 ^ a) by ring. rewrite Hvk. ring. }
    assert (0 <= r * 2 ^ a <= 999 * 2 ^ a) by nia.
    lia.
Qed.

End NumberFacts.

(* ================================================================== *)
(** * The hint of a denial                                             *)
(* ================================================================== *)

(** C3 (amended). Whenever the limiter rejects a request, the caller
    receives status 429 and the fixed denial body, the summarize handler
    does not run, and [retryAfter] is [Math.ceil(windowMs / 1000)], the
    configured window length in seconds rounded up, whatever part of the
    window is left: it is an upper bound of the time left in the window,
    not that time.  The window is below [2^53] milliseconds, where the
    quotient of the Numbers has the ceiling of the exact quotient. *)
Theorem C3_denial_hint
  (env : environment) (provider : jsstring -> provider_outcome)
  (reqs : list (Z * jsstring)) (now : Z) (client : jsstring) (req : request)
  (st' : limiter_state) (remainingMs : Z) :
  let st := (limiter_run env reqs ∅).1 in
  Z.abs (windowMs env) < 2 ^ 53 →
  chronological 0 (reqs ++ [(now, client)]) →
  limiter_hit env now client st = (st', Denied remainingMs) →
  post_summarize env provider now client st req
  = (st', [],
     {| status := 429;
        body := TooManyRequests
                  (lit "Too many requests from this IP, please try again later.")
                  (ceil_div (windowMs env) 1000) |})
  ∧ JsNumber.ceil (JsNumber.div (JsNumber.of_Z (windowMs env))
                     (JsNumber.of_Z 1000))
    = Some (ceil_div (windowMs env) 1000)
  ∧ remainingMs <= windowMs env
  ∧ remaining_seconds remainingMs <= ceil_div (windowMs env) 1000
  ∧ windowMs env <= 1000 * ceil_div (windowMs env) 1000 < windowMs env + 1000.
Proof.
  intros st Hw Hch Hhit.
  assert (remainingMs <= windowMs env) as Hrem.
  { apply (limiter_denied_remaining env now client st st'); [| exact Hhit].
    apply (limiter_run_inv env reqs 0 now client ∅ Hch), limiter_inv_empty. }
  split; [| split; [| split; [exact Hrem | split]]].
  - unfold post_summarize. rewrite Hhit. reflexivity.
  - apply NumberFacts.ceil_div_1000_exact, Hw.
  - by apply ceil_div_mono.
  - apply ceil_div_bounds.
Qed.

Lemma C3_witness :
  let st := (limiter_run one_per_window [(0, a_client)] ∅).1 in
  post_summarize one_per_window (λ _, Completed []) 600000 a_client st
    sample_request
  = (<[a_client := (2, 900000)]> st, [],
     {| status := 429;
        body := TooManyRequests
                  (lit "Too many requests from this IP, please try again later.")
                  900 |})
  ∧ JsNumber.ceil (JsNumber.div (JsNumber.of_Z 900000) (JsNumber.of_Z 1000))
    = Some 900
  ∧ 300000 <= 900000
  ∧ remaining_seconds 300000 <= 900
  ∧ 900000 <= 1000 * 900 < 900000 + 1000.
Proof.
  apply (C3_denial_hint one_per_window (λ _, Completed []) [(0, a_client)]
           600000 a_client sample_request).
  - reflexivity.
  - cbn. lia.
  - reflexivity.
Defined.

(* ================================================================== *)
(** * The compression ratio                                            *)
(* ================================================================== *)

(** C1. The code at a request without a word: a text of 200 spaces passes
    validation and has the word count 0; the ratio of the response is then
    "NaN%" when the summary has no word either and "-Infinity%" when it has
    one, not "0.0%". *)
Theorem C1_zero_word_count_ratio :
  validateSummarizeRequest blank_request = []
  ∧ countWords blank_text = 0%nat
  ∧ ratio_of (summarize false (λ _, Completed []) blank_request).2
    = Some (lit "NaN%")
  ∧ ratio_of (summarize false (λ _, Completed (lit "Nothing to summarize."))
                blank_request).2
    = Some (lit "-Infinity%")
  ∧ compressionRatio 0 0 ≠ lit "0.0%".
Proof.
  split; [vm_compute; reflexivity |].
  split; [vm_compute; reflexivity |].
  split; [vm_compute; reflexivity |].
  split; [vm_compute; reflexivity |].
  vm_compute. discriminate.
Qed.

(** X17. Without a word in the text the quotient has the denominator
    zero, whatever the summary: the ratio is "NaN%" for a summary without
    words and "-Infinity%" otherwise. *)
Lemma compressionRatio_zero_words (s : nat) :
  Z.of_nat s < 2 ^ 32 →
  compressionRatio 0 s
  = match s with O => lit "NaN%" | S _ => lit "-Infinity%" end.
Proof.
  intros Hs. destruct s as [|s']; [vm_compute; reflexivity |].
  unfold compressionRatio, JsNumber.of_nat.
  rewrite NumberFacts.sub_of_Z by lia.
  destruct (NumberFacts.of_Z_neg (Z.of_nat (S s')) ltac:(lia)) as (m & E & _).
  replace (Z.of_nat 0 - Z.of_nat (S s')) with (- Z.of_nat (S s')) by lia.
  rewrite E. reflexivity.
Qed.

Example compressionRatio_samples :
  compressionRatio 150 25 = lit "83.3%"
  ∧ compressionRatio 400 351 = lit "12.3%"
  ∧ compressionRatio 3 2 = lit "33.3%"
  ∧ compressionRatio 7 7 = lit "0.0%"
  ∧ compressionRatio 200 401 = lit "-100.5%"
  ∧ compressionRatio 3000 3001 = lit "-0.0%".
Proof. repeat split; vm_compute; reflexivity. Qed.

(** The ratio of two counts below [2^32] (the lengths of two arrays): a
    sign, the digits of [n / 10], a point, the digit [n mod 10] and "%",
    where [n] is an integer nearest to a thousand times the ratio. *)
Lemma compressionRatio_tenths (o s : nat) :
  (0 < o)%nat → Z.of_nat o < 2 ^ 32 → Z.of_nat s < 2 ^ 32 →
  ∃ n : Z,
    0 <= n
    ∧ compressionRatio o s
      = (if (o <? s)%nat then lit "-" else [])
        ++ decimal (Z.to_N (n / 10)) ++ lit "." ++ decimal (Z.to_N (n mod 10))
        ++ lit "%"
    ∧ 2 * Z.abs (n * Z.of_nat o - 1000 * Z.abs (Z.of_nat o - Z.of_nat s))
      <= Z.of_nat o.
Proof.
  intros Ho Hob Hsb. unfold compressionRatio, JsNumber.of_nat.
  destruct (decide (o = s)) as [<- | Hne].
  - exists 0. split; [lia |].
    rewrite Nat.ltb_irrefl.
    rewrite NumberFacts.sub_of_Z, Z.sub_diag by lia.
    destruct (NumberFacts.of_Z_pos (Z.of_nat o) ltac:(lia)) as (m & -> & _).
    split; [reflexivity | lia].
  - destruct (NumberFacts.ratio_value (Z.of_nat o) (Z.of_nat s))
      as (mp & ep & -> & Hep & Hmp & Hn & Herr); try lia.
    exists (JsNumber.scaled_round 1 mp ep). split; [exact Hn |].
    split; [| exact Herr].
    rewrite NumberFacts.toFixed_below_one by done.
    rewrite NumberFacts.fixed_digits_one by done.
    replace (Z.of_nat o <? Z.of_nat s) with (o <? s)%nat.
    + by rewrite <- !app_assoc.
    + destruct (Nat.ltb_spec o s), (Z.ltb_spec (Z.of_nat o) (Z.of_nat s)); lia.
Qed.

Lemma is_whitespace_not_surrogate c :
  is_whitespace c = true → (c < 0xD800 ∨ 0xDFFF < c)%N.
Proof.
  unfold is_whitespace.
  rewrite !orb_true_iff, !andb_true_iff, !N.eqb_eq, !N.leb_le. lia.
Qed.

Lemma surrogate_pairs_step a b r :
  surrogate_pairs (a :: b :: r)
  = if is_high_surrogate a && is_low_surrogate b
    then S (surrogate_pairs r) else surrogate_pairs (b :: r).
Proof. reflexivity. Qed.

Lemma units_counted_once : ∀ n s, (length s <= n)%nat →
  (length (filter (λ c, is_whitespace c = true) s)
   + length (filter (λ c, is_presentation_selector c = true) s)
   + surrogate_pairs s <= length s)%nat.
Proof.
  induction n as [|n IH]; intros s Hn.
  - destruct s; [cbn; lia | cbn in Hn; lia].
  - destruct s as [|a t]; [cbn; lia |].
    assert (length (filter (λ c, is_whitespace c = true) [a])
            + length (filter (λ c, is_presentation_selector c = true) [a])
            <= 1)%nat as Ha.
    { rewrite !filter_cons, !filter_nil.
      destruct (decide (is_whitespace a = true)) as [Hw | Hw];
        destruct (decide (is_presentation_selector a = true)) as [Hp | Hp];
        cbn; try lia.
      exfalso. revert Hw Hp. unfold is_whitespace, is_presentation_selector.
      rewrite !orb_true_iff, !andb_true_iff, !N.eqb_eq, !N.leb_le. lia. }
    change (a :: t) with ([a] ++ t) at 1 2. rewrite !filter_app, !length_app.
    destruct t as [|b r].
    + cbn [surrogate_pairs]. rewrite !filter_nil. cbn [length]. lia.
    + rewrite surrogate_pairs_step.
      destruct (is_high_surrogate a && is_low_surrogate b) eqn:Hpair.
      * apply andb_true_iff in Hpair as [Hh Hl].
        unfold is_high_surrogate, is_low_surrogate in Hh, Hl.
        rewrite andb_true_iff, !N.leb_le in Hh, Hl.
        assert (∀ c, (0xD800 <= c <= 0xDFFF)%N →
                     filter (λ c, is_whitespace c = true) [c] = []
                     ∧ filter (λ c, is_presentation_selector c = true) [c] = [])
          as Hnone.
        { intros c Hc. rewrite !filter_cons, !filter_nil.
          destruct (decide (is_whitespace c = true)) as [Hw | Hw].
          { apply is_whitespace_not_surrogate in Hw. lia. }
          destruct (decide (is_presentation_selector c = true)) as [Hp | Hp]; [| done].
          exfalso. revert Hp. unfold is_presentation_selector.
          rewrite orb_true_iff, !N.eqb_eq. lia. }
        change (b :: r) with ([b] ++ r). rewrite !filter_app, !length_app.
        destruct (Hnone a ltac:(lia)) as [-> ->].
        destruct (Hnone b ltac:(lia)) as [-> ->].
        specialize (IH r ltac:(cbn [length] in *; lia)). cbn [length app]. lia.
      * specialize (IH (b :: r) ltac:(cbn [length] in *; lia)).
        cbn [length] in *. lia.
Qed.

Lemma words_from_le_whitespace s : ∀ b,
  (words_from b s <= length (filter (λ c, is_whitespace c = true) s) + 1)%nat.
Proof.
  induction s as [|c r IH]; intros b; cbn [words_from].
  - destruct b; lia.
  - rewrite filter_cons. destruct (decide (is_whitespace c = true)) as [Hc | Hc].
    + rewrite Hc. specialize (IH false). destruct b; cbn [length]; lia.
    + apply not_true_is_false in Hc. rewrite Hc. apply IH.
Qed.

(** A text has at most one word more than the characters that the
    validator counts. *)
Lemma countWords_le_isLength_count s :
  (countWords s <= isLength_count s + 1)%nat.
Proof.
  rewrite countWords_words_from. unfold isLength_count.
  pose proof (words_from_le_whitespace s false).
  pose proof (units_counted_once (length s) s ltac:(lia)). lia.
Qed.

Lemma check_nil ok f m : check ok f m = [] → ok = true.
Proof. by destruct ok. Qed.

(** What validation grants on the text. *)
Lemma valid_text_length req text :
  validateSummarizeRequest req = [] →
  body_text req = JString text →
  200 <= Z.of_nat (isLength_count text) <= 10000.
Proof.
  unfold validateSummarizeRequest, validate_text. intros Hv Ht.
  rewrite Ht in Hv. cbn [stringify] in Hv.
  apply app_eq_nil in Hv as [Hv _].
  apply app_eq_nil in Hv as [_ Hv].
  apply app_eq_nil in Hv as [Hmin Hmax].
  apply check_nil, Z.leb_le in Hmin. apply check_nil, Z.leb_le in Hmax. lia.
Qed.

Lemma words_from_le_length s : ∀ b,
  (words_from b s <= length s + (if b then 1 else 0))%nat.
Proof.
  induction s as [|c r IH]; intros b; cbn.
  - destruct b; lia.
  - destruct (is_whitespace c).
    + specialize (IH false). cbn in IH. destruct b; lia.
    + specialize (IH true). cbn in IH. destruct b; lia.
Qed.

Lemma countWords_le_length s : (countWords s <= length s)%nat.
Proof.
  rewrite countWords_words_from.
  pose proof (words_from_le_length s false) as H. cbn in H. lia.
Qed.

Lemma countWords_trim s : countWords (trim s) = countWords s.
Proof. by rewrite !countWords_words_from, words_from_trim. Qed.

(** C4. In a successful response with [originalWordCount > 0], the
    compression ratio is
    [(originalWordCount - summaryWordCount) / originalWordCount * 100]
    written with one decimal place and "%": the digits of [n / 10], a
    point and the digit [n mod 10], for an integer [n] within one half of
    a thousand times the ratio, with "-" in front when the summary has
    more words than the text.  The completion has fewer than [2^32] code
    units (it is bounded by [max_tokens]).  For 150 and 25 words the ratio
    is "83.3%". *)
Theorem C4_compression_ratio :
  (∀ (development : bool) (provider : jsstring -> provider_outcome)
     (req : request) (text content : jsstring),
     validateSummarizeRequest req = [] →
     body_text req = JString text →
     provider (buildPrompt text (default_to (body_tone req) "professional")
                 (default_to (body_length req) "medium")) = Completed content →
     Z.of_nat (length content) < 2 ^ 32 →
     (0 < countWords text)%nat →
     ∃ (data : summary_data) (n : Z),
       (summarize development provider req).2
       = {| status := 200; body := Success data |}
       ∧ originalWordCount data = countWords text
       ∧ summaryWordCount data = countWords content
       ∧ 0 <= n
       ∧ data_compressionRatio data
         = (if (originalWordCount data <? summaryWordCount data)%nat
            then lit "-" else [])
           ++ decimal (Z.to_N (n / 10)) ++ lit "."
           ++ decimal (Z.to_N (n mod 10)) ++ lit "%"
       ∧ 2 * Z.abs (n * Z.of_nat (originalWordCount data)
                    - 1000 * Z.abs (Z.of_nat (originalWordCount data)
                                    - Z.of_nat (summaryWordCount data)))
         <= Z.of_nat (originalWordCount data))
  ∧ compressionRatio 150 25 = lit "83.3%".
Proof.
  split; [| vm_compute; reflexivity].
  intros development provider req text content Hv Ht Hp Hlc Hpos.
  rewrite (summarize_completed development provider req text content Hv Ht Hp).
  cbn [snd].
  pose proof (valid_text_length req text Hv Ht) as Hlen.
  pose proof (countWords_le_isLength_count text) as Ho.
  pose proof (countWords_le_length content) as Hs.
  destruct (compressionRatio_tenths (countWords text) (countWords (trim content)))
    as (n & Hn & Hr & Herr); [done | lia | rewrite countWords_trim; lia |].
  eexists _, n. split; [reflexivity |]. cbn.
  rewrite countWords_trim in *. done.
Qed.

Lemma C4_witness :
  ∃ (data : summary_data) (n : Z),
    (summarize false (λ _, Completed (lit "It repeats a letter.")) sample_request).2
    = {| status := 200; body := Success data |}
    ∧ originalWordCount data = countWords sample_text
    ∧ summaryWordCount data = countWords (lit "It repeats a letter.")
    ∧ 0 <= n
    ∧ data_compressionRatio data
      = (if (originalWordCount data <? summaryWordCount data)%nat
         then lit "-" else [])
        ++ decimal (Z.to_N (n / 10)) ++ lit "."
        ++ decimal (Z.to_N (n mod 10)) ++ lit "%"
    ∧ 2 * Z.abs (n * Z.of_nat (originalWordCount data)
                 - 1000 * Z.abs (Z.of_nat (originalWordCount data)
                                 - Z.of_nat (summaryWordCount data)))
      <= Z.of_nat (originalWordCount data).
Proof.
  apply (proj1 C4_compression_ratio false
           (λ _, Completed (lit "It repeats a letter.")) sample_request
           sample_text (lit "It repeats a letter.")).
  - apply sample_request_valid.
  - reflexivity.
  - reflexivity.
  - reflexivity.
  - vm_compute. lia.
Defined.

(* ================================================================== *)
(** * Further properties: strings                                      *)
(* ================================================================== *)

Lemma starts_with_spec prefix : ∀ s,
  starts_with prefix s = true ↔ ∃ v, s = prefix ++ v.
Proof.
  induction prefix as [|a p IH]; intros s; cbn.
  - split; [intros _; by exists s | done].
  - destruct s as [|b r].
    + split; [discriminate | intros (v & Hv); discriminate Hv].
    + rewrite andb_true_iff, N.eqb_eq, IH. split.
      * intros (-> & v & ->). by exists v.
      * intros (v & [= -> ->]). split; [done | by exists v].
Qed.

(** [includes] finds the needle wherever it stands. *)
Lemma includes_spec needle : ∀ s,
  includes s needle = true ↔ ∃ u v, s = u ++ needle ++ v.
Proof.
  induction s as [|c r IH].
  - cbn [includes]. rewrite orb_false_r, starts_with_spec. split.
    + intros (v & Hv). by exists [], v.
    + intros (u & v & Huv). destruct u; [by exists v |]. discriminate Huv.
  - cbn [includes]. rewrite orb_true_iff, starts_with_spec, IH. split.
    + intros [(v & Hv) | (u & v & ->)].
      * by exists [], v.
      * by exists (c :: u), v.
    + intros (u & v & Huv). destruct u as [|d u].
      * left. by exists v.
      * right. injection Huv as -> ->. by exists u, v.
Qed.







Lemma words_from_true_pos s : (1 <= words_from true s)%nat.
Proof.
  induction s as [|c r IH]; cbn; [lia |].
  destruct (is_whitespace c); lia.
Qed.

(** X2. A text has no word exactly when it is made of white space only
    (the empty text included). *)
Theorem X2_countWords_zero (s : jsstring) :
  countWords s = 0%nat ↔ all_whitespace s.
Proof.
  rewrite countWords_words_from. split.
  - induction s as [|c r IH]; [constructor |].
    cbn. destruct (is_whitespace c) eqn:Hc.
    + intros H. constructor; [done | apply IH; lia].
    + pose proof (words_from_true_pos r). lia.
  - intros H. by rewrite words_from_whitespace.
Qed.

Lemma X2_witness : countWords [32%N; 9%N; 10%N; 160%N] = 0%nat.
Proof.
  apply (proj2 (X2_countWords_zero [32%N; 9%N; 10%N; 160%N])).
  repeat constructor.
Defined.

(** X3. White space between two texts separates their words: the count of
    the whole is the sum of the counts of the parts. *)
Theorem X3_countWords_additive (u w v : jsstring) :
  all_whitespace w → w ≠ [] →
  countWords (u ++ w ++ v) = (countWords u + countWords v)%nat.
Proof.
  intros Hw Hne. by rewrite !countWords_words_from, words_from_separated.
Qed.

Lemma X3_witness :
  countWords (lit "key points" ++ [10%N; 10%N] ++ lit "main ideas")
  = (countWords (lit "key points") + countWords (lit "main ideas"))%nat.
Proof.
  apply (X3_countWords_additive (lit "key points") [10%N; 10%N] (lit "main ideas")).
  - repeat constructor.
  - discriminate.
Defined.

Lemma words_from_half s : ∀ b,
  (2 * words_from b s <= length s + (if b then 2 else 1))%nat.
Proof.
  induction s as [|c r IH]; intros b; cbn [words_from length].
  - destruct b; lia.
  - destruct (is_whitespace c).
    + specialize (IH false). cbn beta iota in IH. destruct b; lia.
    + specialize (IH true). cbn beta iota in IH. destruct b; lia.
Qed.

(** X4. Words need separators: a text of [n] code units has at most
    [(n + 1) / 2] words. *)
Theorem X4_countWords_bound (s : jsstring) :
  (2 * countWords s <= length s + 1)%nat.
Proof. rewrite countWords_words_from. apply (words_from_half s false). Qed.

Lemma split_go_pieces s : ∀ in_run cur,
  no_whitespace cur →
  Forall no_whitespace (split_go in_run cur s)
  ∧ concat (split_go in_run cur s)
    = cur ++ filter (λ c, is_whitespace c = false) s.
Proof.
  induction s as [|c r IH]; intros in_run cur Hcur; cbn [split_go].
  - split; [by repeat constructor |]. cbn [concat]. by rewrite filter_nil.
  - rewrite filter_cons. destruct (is_whitespace c) eqn:Hc.
    + destruct (decide (true = false)) as [Hd | _]; [discriminate Hd |].
      destruct in_run.
      * by apply IH.
      * destruct (IH true [] ltac:(constructor)) as [Hf Hcat].
        split; [by constructor |]. cbn [concat]. by rewrite Hcat.
    + destruct (decide (false = false)) as [_ | Hd]; [| done].
      destruct (IH false (cur ++ [c])) as [Hf Hcat].
      { apply Forall_app. split; [done | by repeat constructor]. }
      split; [done |]. by rewrite Hcat, <- app_assoc.
Qed.

(** X5. The pieces of [split(/\s+/)] hold no white space, and put
    together they are the text without its white space. *)
Theorem X5_split_pieces (s : jsstring) :
  Forall no_whitespace (split_whitespace s)
  ∧ concat (split_whitespace s) = filter (λ c, is_whitespace c = false) s.
Proof. apply (split_go_pieces s false []). constructor. Qed.

(* ================================================================== *)
(** * Further properties: the catch block                              *)
(* ================================================================== *)

(** X6. The answer to a provider error is 400 exactly when its status is
    neither 429 nor 401 and its message contains [context_length]
    somewhere. *)
Theorem X6_text_too_long_iff (development : bool) (error : js_error) :
  status (handle_error development error) = 400
  ↔ err_status error ≠ Some 429 ∧ err_status error ≠ Some 401
    ∧ ∃ u v, err_message error = Some (u ++ lit "context_length" ++ v).
Proof.
  destruct (decide (err_status error = Some 429)) as [H429 | N429].
  { rewrite handle_error_429 by done. cbn. split; [discriminate | tauto]. }
  destruct (decide (err_status error = Some 401)) as [H401 | N401].
  { rewrite handle_error_401 by done. cbn. split; [discriminate | tauto]. }
  rewrite handle_error_other_status by done.
  destruct (err_message error) as [m|] eqn:Em.
  - destruct (includes m (lit "context_length")) eqn:Hm.
    + assert (negb (bool_decide (m = [])) = true) as ->.
      { destruct m; [discriminate Hm | reflexivity]. }
      cbn [andb status]. split; [| done]. intros _.
      split; [done |]. split; [done |].
      destruct (proj1 (includes_spec _ m) Hm) as (u & v & ->). by exists u, v.
    + rewrite andb_false_r. cbn [status]. split; [discriminate |].
      intros (_ & _ & u & v & Huv). apply (inj Some) in Huv. subst m.
      assert (includes (u ++ lit "context_length" ++ v) (lit "context_length") = true)
        as Hin by (apply includes_spec; by exists u, v).
      congruence.
  - cbn [status]. split; [discriminate |].
    intros (_ & _ & u & v & Huv). discriminate Huv.
Qed.

Lemma X6_witness :
  status (handle_error false
            {| err_status := Some 400;
               err_message :=
                 Some (lit "Error: " ++ lit "context_length" ++ lit "_exceeded") |})
  = 400.
Proof.
  apply (proj2 (X6_text_too_long_iff false _)).
  split; [discriminate |]. split; [discriminate |].
  exists (lit "Error: "), (lit "_exceeded"). reflexivity.
Defined.



(* ================================================================== *)
(** * Further properties: validation                                   *)
(* ================================================================== *)

Lemma valid_passes req : ¬ invalid req → validateSummarizeRequest req = [].
Proof.
  intros Hok. unfold invalid in Hok.
  unfold validateSummarizeRequest, validate_text, validate_optional, isIn.
  destruct (isString (body_text req)) eqn:Hs; [| tauto].
  rewrite (proj2 (Z.leb_le 200 _)) by lia.
  rewrite (proj2 (Z.leb_le _ 10000)) by lia.
  cbn [check app].
  assert (∀ (values : list jsstring) v f m,
            ¬ (v ≠ JUndefined ∧ stringify v ∉ values) →
            match v with
            | JUndefined => []
            | _ => check (bool_decide (stringify v ∈ values)) f m
            end = []) as Hopt.
  { intros values v f m Hn.
    destruct (decide (stringify v ∈ values)) as [Hin | Hout].
    - destruct v; [done | |]; by rewrite bool_decide_eq_true_2.
    - destruct v; [done | |];
        exfalso; apply Hn; (split; [discriminate | exact Hout]). }
  rewrite !Hopt; [done | tauto | tauto].
Qed.

(** X9. For a text that is a string, the details on the text name the
    bound it breaks: one entry on the minimum below 200 characters, one on
    the maximum above 10000, none in between. *)
Theorem X9_text_bound_messages (s : jsstring) :
  (Z.of_nat (isLength_count s) < 200 →
   validate_text (JString s)
   = [{| field := lit "text";
         message := lit "Text must be at least 200 characters long" |}])
  ∧ (10000 < Z.of_nat (isLength_count s) →
     validate_text (JString s)
     = [{| field := lit "text";
           message := lit "Text must not exceed 10,000 characters" |}])
  ∧ (200 <= Z.of_nat (isLength_count s) <= 10000 →
     validate_text (JString s) = []).
Proof.
  unfold validate_text. cbn [isString stringify check app].
  repeat split; intros H.
  - rewrite (proj2 (Z.leb_gt 200 _)) by lia.
    rewrite (proj2 (Z.leb_le _ 10000)) by lia. reflexivity.
  - rewrite (proj2 (Z.leb_le 200 _)) by lia.
    rewrite (proj2 (Z.leb_gt _ 10000)) by lia. reflexivity.
  - rewrite (proj2 (Z.leb_le 200 _)) by lia.
    rewrite (proj2 (Z.leb_le _ 10000)) by lia. reflexivity.
Qed.

Lemma X9_witness :
  validate_text (JString (lit "Too short."))
  = [{| field := lit "text";
        message := lit "Text must be at least 200 characters long" |}].
Proof.
  apply (proj1 (X9_text_bound_messages (lit "Too short."))).
  vm_compute. reflexivity.
Defined.

(* ================================================================== *)
(** * Further properties: the summarize handler                        *)
(* ================================================================== *)

Lemma valid_text_is_string req :
  validateSummarizeRequest req = [] → ∃ text, body_text req = JString text.
Proof.
  unfold validateSummarizeRequest, validate_text. intros Hv.
  apply app_eq_nil in Hv as [Hv _]. apply app_eq_nil in Hv as [Hs _].
  apply check_nil in Hs. destruct (body_text req); try discriminate Hs.
  by eexists.
Qed.

Lemma handle_error_status development error :
  status (handle_error development error) ∈ [503; 500; 400].
Proof.
  unfold handle_error. apply list_elem_of_In.
  repeat (case_match; cbn [status]); cbn; tauto.
Qed.

(** X12. The status of an answer of the handler is 200, 400, 500 or 503;
    it is 200 exactly when the request passes validation and the provider
    returns a completion for its prompt. *)
Theorem X12_success_iff
  (development : bool) (provider : jsstring -> provider_outcome)
  (req : request) :
  status (summarize development provider req).2 ∈ [200; 400; 500; 503]
  ∧ (status (summarize development provider req).2 = 200
     ↔ validateSummarizeRequest req = []
       ∧ ∃ text content,
           body_text req = JString text
           ∧ provider (buildPrompt text
                         (default_to (body_tone req) "professional")
                         (default_to (body_length req) "medium"))
             = Completed content).
Proof.
  assert (∀ error, status (handle_error development error) ≠ 200) as Hne200.
  { intros error H. pose proof (handle_error_status development error) as Hs.
    rewrite H in Hs. apply list_elem_of_In in Hs. cbn in Hs. lia. }
  assert (∀ error, status (handle_error development error)
                   ∈ [200; 400; 500; 503]) as Hin.
  { intros error. pose proof (handle_error_status development error) as Hs.
    apply list_elem_of_In in Hs. apply list_elem_of_In. cbn in *. tauto. }
  destruct (decide (validateSummarizeRequest req = [])) as [Hv | Hinv].
  - destruct (valid_text_is_string req Hv) as (text & Ht).
    destruct (provider (buildPrompt text
                          (default_to (body_tone req) "professional")
                          (default_to (body_length req) "medium")))
      as [content | error] eqn:Hp.
    + rewrite (summarize_completed development provider req text content Hv Ht Hp).
      cbn [snd status]. split; [apply list_elem_of_In; cbn; tauto |].
      split; [| done]. intros _. split; [done |]. by exists text, content.
    + rewrite (summarize_thrown development provider req text error Hv Ht Hp).
      cbn [snd]. split; [apply Hin |]. split.
      * intros H. by destruct (Hne200 error).
      * intros (_ & text' & content & Ht' & Hp').
        rewrite Ht in Ht'. injection Ht' as <-. congruence.
  - rewrite (summarize_invalid development provider req Hinv). cbn [snd status].
    split; [apply list_elem_of_In; cbn; tauto |]. split; [discriminate | tauto].
Qed.

Lemma X12_witness :
  status (summarize false (λ _, Completed (lit "A summary.")) sample_request).2
  = 200.
Proof.
  apply (proj2 (proj2 (X12_success_iff false (λ _, Completed (lit "A summary."))
                         sample_request))).
  split; [apply sample_request_valid |].
  exists sample_text, (lit "A summary."). split; reflexivity.
Defined.

(** X13. A request with a text of 200 to 10000 characters, a tone of the
    enumeration and a length of the enumeration succeeds when the provider
    answers: the response echoes the text, the tone and the length, and
    the prompt carries a tone clause that is not empty. *)
Theorem X13_settings_echo
  (development : bool) (provider : jsstring -> provider_outcome)
  (text tone length content : jsstring) :
  let req := {| body_text := JString text;
                body_tone := JString tone;
                body_length := JString length |} in
  let prompt := buildPrompt text (JString tone) (JString length) in
  200 <= Z.of_nat (isLength_count text) <= 10000 →
  tone ∈ tones → length ∈ lengths →
  provider prompt = Completed content →
  ∃ data,
    summarize development provider req
    = ([prompt], {| status := 200; body := Success data |})
    ∧ originalText data = text
    ∧ settings_tone data = JString tone
    ∧ settings_length data = JString length
    ∧ getToneInstruction (JString tone) ≠ [].
Proof.
  intros req prompt Hlen Htone Hlength Hp.
  assert (validateSummarizeRequest req = []) as Hv.
  { apply valid_passes. unfold invalid, req.
    cbn [body_text body_tone body_length isString stringify].
    intros [H | [H | [H | [[_ H] | [_ H]]]]]; try discriminate; try lia; done. }
  eexists. split;
    [apply (summarize_completed development provider req text content Hv eq_refl Hp) |].
  cbn [originalText settings_tone settings_length].
  split; [done |]. split; [done |]. split; [done |].
  unfold tones in Htone.
  repeat (apply elem_of_cons in Htone as [-> | Htone]; [discriminate |]).
  by apply elem_of_nil in Htone.
Qed.

Lemma X13_witness :
  ∃ data,
    summarize false (λ _, Completed (lit "A summary."))
      {| body_text := JString sample_text;
         body_tone := JString (lit "academic");
         body_length := JString (lit "long") |}
    = ([buildPrompt sample_text (JString (lit "academic")) (JString (lit "long"))],
       {| status := 200; body := Success data |})
    ∧ originalText data = sample_text
    ∧ settings_tone data = JString (lit "academic")
    ∧ settings_length data = JString (lit "long")
    ∧ getToneInstruction (JString (lit "academic")) ≠ [].
Proof.
  apply (X13_settings_echo false (λ _, Completed (lit "A summary."))
           sample_text (lit "academic") (lit "long") (lit "A summary.")).
  - vm_compute. split; discriminate.
  - apply list_elem_of_In. cbn. tauto.
  - apply list_elem_of_In. cbn. tauto.
  - reflexivity.
Defined.

(* ================================================================== *)
(** * Further properties: the compression ratio                        *)
(* ================================================================== *)

(** Away from a tie between two tenths, the ratio is the exact quotient
    rounded to a tenth, computed on integers. *)
Lemma compressionRatio_formula (o s : nat) :
  (0 < o)%nat → Z.of_nat o < 2 ^ 32 → Z.of_nat s < 2 ^ 32 →
  (2000 * Z.abs (Z.of_nat o - Z.of_nat s)) mod (2 * Z.of_nat o) ≠ Z.of_nat o →
  compressionRatio o s
  = percentage (o <? s)%nat
      ((2000 * Z.abs (Z.of_nat o - Z.of_nat s) + Z.of_nat o) / (2 * Z.of_nat o)).
Proof.
  intros Ho Hob Hsb Htie.
  destruct (compressionRatio_tenths o s Ho Hob Hsb) as (n & Hn & -> & Herr).
  unfold percentage.
  set (d := Z.abs (Z.of_nat o - Z.of_nat s)) in *.
  assert ((2000 * d + Z.of_nat o) / (2 * Z.of_nat o) = n) as ->; [| done].
  symmetry. apply (Z.div_unique _ _ n (2000 * d + Z.of_nat o - 2 * Z.of_nat o * n));
    [| lia].
  left. split; [lia |].
  assert (2000 * d + Z.of_nat o - 2 * Z.of_nat o * n ≠ 2 * Z.of_nat o) as Hne;
    [| lia].
  intros Heq. apply Htie. symmetry.
  apply (Z.mod_unique _ _ n); [lia | lia].
Qed.

(** X14. Unless a thousand times the ratio falls exactly between two
    integers, the ratio shown is [|o - s| / o * 100] rounded to the nearest
    tenth, with "-" in front when the summary has more words: the tenths
    are [(2000 * |o - s| + o) / (2 * o)] in integer arithmetic. *)
Theorem X14_ratio_formula (o s : nat) :
  (0 < o)%nat → Z.of_nat o < 2 ^ 32 → Z.of_nat s < 2 ^ 32 →
  (2000 * Z.abs (Z.of_nat o - Z.of_nat s)) mod (2 * Z.of_nat o) ≠ Z.of_nat o →
  compressionRatio o s
  = percentage (o <? s)%nat
      ((2000 * Z.abs (Z.of_nat o - Z.of_nat s) + Z.of_nat o) / (2 * Z.of_nat o)).
Proof. apply compressionRatio_formula. Qed.

Lemma X14_witness :
  compressionRatio 712 95
  = percentage (712 <? 95)%nat
      ((2000 * Z.abs (Z.of_nat 712 - Z.of_nat 95) + Z.of_nat 712)
       / (2 * Z.of_nat 712)).
Proof.
  apply (X14_ratio_formula 712 95).
  - lia.
  - reflexivity.
  - reflexivity.
  - vm_compute. discriminate.
Defined.

(** X15. Whatever the word count of the text, a summary without words
    gives "100.0%", a summary of as many words "0.0%" and a summary of
    twice as many words "-100.0%". *)
Theorem X15_ratio_landmarks (o : nat) :
  (0 < o)%nat → Z.of_nat o < 2 ^ 31 →
  compressionRatio o 0 = lit "100.0%"
  ∧ compressionRatio o o = lit "0.0%"
  ∧ compressionRatio o (2 * o) = lit "-100.0%".
Proof.
  intros Ho Hob.
  split; [| split].
  - rewrite compressionRatio_formula; try lia.
    + replace (o <? 0)%nat with false by (symmetry; apply Nat.ltb_ge; lia).
      replace ((2000 * Z.abs (Z.of_nat o - Z.of_nat 0) + Z.of_nat o)
               / (2 * Z.of_nat o)) with 1000; [reflexivity |].
      apply (Z.div_unique _ _ _ (Z.of_nat o)); lia.
    + intros H. rewrite <- (Z.mod_unique _ _ 1000 0) in H; lia.
  - rewrite compressionRatio_formula; try lia.
    + rewrite Nat.ltb_irrefl.
      replace ((2000 * Z.abs (Z.of_nat o - Z.of_nat o) + Z.of_nat o)
               / (2 * Z.of_nat o)) with 0; [reflexivity |].
      apply (Z.div_unique _ _ _ (Z.of_nat o)); lia.
    + intros H. rewrite <- (Z.mod_unique _ _ 0 0) in H; lia.
  - rewrite compressionRatio_formula; try lia.
    + replace (o <? 2 * o)%nat with true by (symmetry; apply Nat.ltb_lt; lia).
      replace ((2000 * Z.abs (Z.of_nat o - Z.of_nat (2 * o)) + Z.of_nat o)
               / (2 * Z.of_nat o)) with 1000; [reflexivity |].
      apply (Z.div_unique _ _ _ (Z.of_nat o)); lia.
    + intros H. rewrite <- (Z.mod_unique _ _ 1000 0) in H; lia.
Qed.

Lemma X15_witness :
  compressionRatio 120 0 = lit "100.0%"
  ∧ compressionRatio 120 120 = lit "0.0%"
  ∧ compressionRatio 120 (2 * 120) = lit "-100.0%".
Proof.
  apply (X15_ratio_landmarks 120).
  - lia.
  - reflexivity.
Defined.

(** X16. When the summary has no more words than a text of at least one
    word, the ratio has no sign and lies between "0.0%" and "100.0%". *)
Theorem X16_ratio_range (o s : nat) :
  (0 < o)%nat → (s <= o)%nat → Z.of_nat o < 2 ^ 32 →
  ∃ tenths, 0 <= tenths <= 1000
            ∧ compressionRatio o s = percentage false tenths.
Proof.
  intros Ho Hso Hob.
  destruct (compressionRatio_tenths o s Ho Hob ltac:(lia)) as (n & Hn & Hr & Herr).
  exists n. split; [nia |].
  rewrite Hr. unfold percentage.
  by replace (o <? s)%nat with false by (symmetry; apply Nat.ltb_ge; lia).
Qed.

Lemma X16_witness :
  ∃ tenths, 0 <= tenths <= 1000
            ∧ compressionRatio 150 25 = percentage false tenths.
Proof.
  apply (X16_ratio_range 150 25).
  - lia.
  - lia.
  - reflexivity.
Defined.

Lemma X17_witness :
  compressionRatio 0 12
  = match 12%nat with O => lit "NaN%" | S _ => lit "-Infinity%" end.
Proof.
  apply (compressionRatio_zero_words 12). reflexivity.
Defined.

(* ================================================================== *)
(** * Further properties: configuration and the fallback route         *)
(* ================================================================== *)

(** X18. The two limits are never zero: a variable that is unset, not a
    number or zero gives way to the default, 15 minutes (and the hint 900)
    and 100 requests; any other number is taken as it is. *)
Theorem X18_limits_fallback (env : environment) :
  windowMs env ≠ 0 ∧ max env ≠ 0
  ∧ (RATE_LIMIT_WINDOW_MS env = None ∨ RATE_LIMIT_WINDOW_MS env = Some 0 →
     windowMs env = 900000
     ∧ limiter_message env
       = TooManyRequests
           (lit "Too many requests from this IP, please try again later.") 900)
  ∧ (RATE_LIMIT_MAX_REQUESTS env = None ∨ RATE_LIMIT_MAX_REQUESTS env = Some 0 →
     max env = 100)
  ∧ (∀ w, w ≠ 0 → RATE_LIMIT_WINDOW_MS env = Some w → windowMs env = w)
  ∧ (∀ n, n ≠ 0 → RATE_LIMIT_MAX_REQUESTS env = Some n → max env = n).
Proof.
  unfold limiter_message, windowMs, max, or_default.
  split; [| split; [| split; [| split; [| split]]]].
  - destruct (RATE_LIMIT_WINDOW_MS env) as [w|]; [| lia].
    destruct (Z.eqb_spec w 0); lia.
  - destruct (RATE_LIMIT_MAX_REQUESTS env) as [n|]; [| lia].
    destruct (Z.eqb_spec n 0); lia.
  - intros [-> | ->]; split; reflexivity.
  - intros [-> | ->]; reflexivity.
  - intros w Hw ->. destruct (Z.eqb_spec w 0); [done | reflexivity].
  - intros n Hn ->. destruct (Z.eqb_spec n 0); [done | reflexivity].
Qed.

Lemma X18_witness :
  windowMs {| RATE_LIMIT_WINDOW_MS := Some 60000;
              RATE_LIMIT_MAX_REQUESTS := Some 0;
              NODE_ENV_development := false |} = 60000
  ∧ max {| RATE_LIMIT_WINDOW_MS := Some 60000;
           RATE_LIMIT_MAX_REQUESTS := Some 0;
           NODE_ENV_development := false |} = 100.
Proof.
  split.
  - apply (proj1 (proj2 (proj2 (proj2 (proj2 (X18_limits_fallback _)))))).
    + discriminate.
    + reflexivity.
  - apply (proj1 (proj2 (proj2 (proj2 (X18_limits_fallback _))))).
    right. reflexivity.
Defined.

Lemma first_space_unique (m1 : jsstring) : ∀ m2 r1 r2,
  32%N ∉ m1 → 32%N ∉ m2 →
  m1 ++ 32%N :: r1 = m2 ++ 32%N :: r2 → m1 = m2 ∧ r1 = r2.
Proof.
  induction m1 as [|a m1 IH]; intros m2 r1 r2 H1 H2 E.
  - destruct m2 as [|b m2]; [by injection E |].
    injection E as <- _. exfalso. apply H2. constructor.
  - destruct m2 as [|b m2].
    + injection E as -> _. exfalso. apply H1. constructor.
    + injection E as -> E.
      destruct (IH m2 r1 r2) as [-> ->]; [| | done | done].
      * intros Hin. apply H1. by constructor.
      * intros Hin. apply H2. by constructor.
Qed.

(** X19. The 404 answer names the request: its message contains the method
    and the URL, and two requests with different methods or URLs get
    different messages (a method holds no space). *)
Theorem X19_not_found_names_request (method1 url1 method2 url2 : jsstring) :
  status (not_found method1 url1) = 404
  ∧ (∃ message,
       body (not_found method1 url1)
       = Failure (lit "Endpoint not found") message None
       ∧ includes message method1 = true ∧ includes message url1 = true)
  ∧ (32%N ∉ method1 → 32%N ∉ method2 →
     not_found method1 url1 = not_found method2 url2 →
     method1 = method2 ∧ url1 = url2).
Proof.
  split; [reflexivity |]. split.
  - eexists. split; [reflexivity |]. split; apply includes_spec.
    + by exists (lit "The endpoint "), (lit " " ++ url1 ++ lit " does not exist").
    + exists (lit "The endpoint " ++ method1 ++ lit " "), (lit " does not exist").
      by rewrite <- !app_assoc.
  - intros H1 H2 E. unfold not_found in E. injection E as E.
    destruct (first_space_unique method1 method2
                (url1 ++ lit " does not exist") (url2 ++ lit " does not exist")
                H1 H2 E) as [-> E'].
    split; [done |]. by apply app_inv_tail in E'.
Qed.

Lemma X19_witness :
  lit "DELETE" = lit "DELETE" ∧ lit "/summarize" = lit "/summarize".
Proof.
  apply (proj2 (proj2 (X19_not_found_names_request
                         (lit "DELETE") (lit "/summarize")
                         (lit "DELETE") (lit "/summarize")))).
  - vm_compute. intros H.
    repeat (apply elem_of_cons in H as [H | H]; [discriminate H |]).
    by apply elem_of_nil in H.
  - vm_compute. intros H.
    repeat (apply elem_of_cons in H as [H | H]; [discriminate H |]).
    by apply elem_of_nil in H.
  - reflexivity.
Defined.

(** X20. The text of a request that passes validation has at most 10001
    words: every word but the first follows a character that the validator
    counts. *)
Theorem X20_word_count_of_valid_text (req : request) (text : jsstring) :
  validateSummarizeRequest req = [] →
  body_text req = JString text →
  Z.of_nat (countWords text) <= 10001.
Proof.
  intros Hv Ht.
  pose proof (valid_text_length req text Hv Ht) as Hlen.
  pose proof (countWords_le_isLength_count text) as Hw. lia.
Qed.

Lemma X20_witness : Z.of_nat (countWords sample_text) <= 10001.
Proof.
  apply (X20_word_count_of_valid_text sample_request sample_text).
  - apply sample_request_valid.
  - reflexivity.
Defined.
